(** * lab_eod: template resolution, query variants and best-result selection

    A shallow embedding of the decision logic of the two command-line
    scripts [advanced_research.py] and [eoden_simple_prompt.py], followed
    by the properties of that logic.

    Python [str] values are embedded as [string], holding the UTF-8
    encoding of the text.  Substring search and replacement on well-formed
    UTF-8 agree with the same operations on code points, because UTF-8 is
    self-synchronising. *)

From Stdlib Require Import Bool Arith List Lia Ascii String Permutation.
From Stdlib Require Import ZArith Numbers.DecimalString.
Import ListNotations.
Open Scope string_scope.
Open Scope nat_scope.

(** ** Python string primitives used by the scripts *)

Module PyStr.

Definition code (c : ascii) : nat := nat_of_ascii c.

Definition between (lo hi : nat) (c : ascii) : bool :=
  (lo <=? code c) && (code c <=? hi).

Definition nl : string := String (ascii_of_nat 10) EmptyString.

Definition nonempty (s : string) : bool :=
  match s with EmptyString => false | String _ _ => true end.

(** [sub in s] *)
Fixpoint contains (sub s : string) : bool :=
  prefix sub s ||
  match s with
  | EmptyString => false
  | String _ s' => contains sub s'
  end.

(** [s.find(sub)], with [None] for [-1] *)
Fixpoint find (sub s : string) : option nat :=
  if prefix sub s then Some 0
  else match s with
       | EmptyString => None
       | String _ s' => option_map S (find sub s')
       end.

(** [s.replace(old, new)] for a non-empty [old]: scan from the left; at an
    occurrence of [old] emit [new] and jump over the occurrence ([skip]
    counts the characters of it still to be dropped). *)
Fixpoint replace_from (old new : string) (skip : nat) (s : string) : string :=
  match s with
  | EmptyString => EmptyString
  | String c s' =>
      match skip with
      | S k => replace_from old new k s'
      | O =>
          if prefix old s
          then new ++ replace_from old new (String.length old - 1) s'
          else String c (replace_from old new 0 s')
      end
  end.

(** With an empty [old], Python inserts [new] before every character and
    at the end. *)
Fixpoint insert_after_each (new s : string) : string :=
  match s with
  | EmptyString => EmptyString
  | String c s' => String c (new ++ insert_after_each new s')
  end.

Definition replace (s old new : string) : string :=
  match old with
  | EmptyString => new ++ insert_after_each new s
  | String _ _ => replace_from old new 0 s
  end.

(** [s.lower()] and [s.upper()].  Exact on ASCII and on the Latin-1
    letters U+00C0..U+00DE / U+00E0..U+00FE, which in UTF-8 are the byte
    0xC3 followed by 0x80..0x9E / 0xA0..0xBE (0x97 and 0xB7 are the
    multiplication and division signs).  Letters of other scripts are left
    as they are. *)
Definition lower_byte (after_c3 : bool) (c : ascii) : ascii :=
  if after_c3
  then if between 128 158 c && negb (code c =? 151)
       then ascii_of_nat (code c + 32) else c
  else if between 65 90 c then ascii_of_nat (code c + 32) else c.

Definition upper_byte (after_c3 : bool) (c : ascii) : ascii :=
  if after_c3
  then if between 160 190 c && negb (code c =? 183)
       then ascii_of_nat (code c - 32) else c
  else if between 97 122 c then ascii_of_nat (code c - 32) else c.

Fixpoint map_bytes (f : bool -> ascii -> ascii) (after_c3 : bool) (s : string)
  : string :=
  match s with
  | EmptyString => EmptyString
  | String c s' => String (f after_c3 c) (map_bytes f (code c =? 195) s')
  end.

Definition lower (s : string) : string := map_bytes lower_byte false s.
Definition upper (s : string) : string := map_bytes upper_byte false s.

(** Width in bytes of the whitespace character at the head of [s], 0 when
    the head is not whitespace.  The whitespace characters of [str.split]
    and [str.strip] are U+0009..U+000D, U+001C..U+0020, U+0085, U+00A0,
    U+1680, U+2000..U+200A, U+2028, U+2029, U+202F, U+205F and U+3000. *)
Definition ws_width (s : string) : nat :=
  match s with
  | EmptyString => 0
  | String c1 r1 =>
      if between 9 13 c1 || between 28 32 c1 then 1
      else
        match r1 with
        | EmptyString => 0
        | String c2 r2 =>
            if (code c1 =? 194) && ((code c2 =? 133) || (code c2 =? 160))
            then 2
            else
              match r2 with
              | EmptyString => 0
              | String c3 _ =>
                  if (code c1 =? 225) && (code c2 =? 154) && (code c3 =? 128)
                  then 3
                  else if (code c1 =? 226) && (code c2 =? 128)
                          && (between 128 138 c3 || (code c3 =? 168)
                              || (code c3 =? 169) || (code c3 =? 175))
                  then 3
                  else if (code c1 =? 226) && (code c2 =? 129)
                          && (code c3 =? 159)
                  then 3
                  else if (code c1 =? 227) && (code c2 =? 128)
                          && (code c3 =? 128)
                  then 3
                  else 0
              end
        end
  end.

Definition flush (cur : string) (l : list string) : list string :=
  match cur with
  | EmptyString => l
  | String _ _ => cur :: l
  end.

(** [s.split()]: the maximal runs of non-whitespace characters. *)
Fixpoint split_from (skip : nat) (cur : string) (s : string) : list string :=
  match s with
  | EmptyString => flush cur []
  | String c s' =>
      match skip with
      | S k => split_from k cur s'
      | O =>
          match ws_width s with
          | O => split_from 0 (cur ++ String c EmptyString) s'
          | S w => flush cur (split_from w EmptyString s')
          end
      end
  end.

Definition split (s : string) : list string := split_from 0 EmptyString s.

Fixpoint lstrip_from (skip : nat) (s : string) : string :=
  match s with
  | EmptyString => EmptyString
  | String _ s' =>
      match skip with
      | S k => lstrip_from k s'
      | O =>
          match ws_width s with
          | O => s
          | S w => lstrip_from w s'
          end
      end
  end.

Definition all_space (s : string) : bool :=
  match split s with
  | [] => true
  | _ :: _ => false
  end.

Fixpoint rstrip (s : string) : string :=
  match s with
  | EmptyString => EmptyString
  | String c s' => if all_space s then EmptyString else String c (rstrip s')
  end.

(** [s.strip()] *)
Definition strip (s : string) : string := rstrip (lstrip_from 0 s).

(** [s.split('/')[-1]]: what follows the last slash, the whole of [s] when
    it has none. *)
Fixpoint last_segment_from (cur : string) (s : string) : string :=
  match s with
  | EmptyString => cur
  | String c s' =>
      if Ascii.eqb c "/"%char then last_segment_from EmptyString s'
      else last_segment_from (cur ++ String c EmptyString) s'
  end.

Definition last_segment (s : string) : string :=
  last_segment_from EmptyString s.

Definition hex_digit (c : ascii) : option nat :=
  if between 48 57 c then Some (code c - 48)
  else if between 65 70 c then Some (code c - 55)
  else if between 97 102 c then Some (code c - 87)
  else None.

(** [urllib.parse.unquote(s)]: every [%XY] with two hexadecimal digits
    becomes the byte 0xXY, everything else is kept.  Exact whenever the
    decoded bytes are well-formed UTF-8; on ill-formed bytes the library
    substitutes U+FFFD. *)
Fixpoint unquote (s : string) : string :=
  match s with
  | EmptyString => EmptyString
  | String c s1 =>
      if Ascii.eqb c "%"%char then
        match s1 with
        | String h (String l rest) =>
            match hex_digit h, hex_digit l with
            | Some a, Some b => String (ascii_of_nat (16 * a + b)) (unquote rest)
            | _, _ => String c (unquote s1)
            end
        | _ => String c (unquote s1)
        end
      else String c (unquote s1)
  end.

(** [str(n)] for an integer *)
Definition str_of_Z (z : Z) : string := NilZero.string_of_int (Z.to_int z).

(** [sep * n] *)
Fixpoint repeat_string (s : string) (n : nat) : string :=
  match n with
  | O => EmptyString
  | S k => s ++ repeat_string s k
  end.

End PyStr.

Import PyStr.

(** ** Exceptions, outcomes and console output *)

(** The exceptions the modelled code meets; all are subclasses of
    [Exception].  [KeyboardInterrupt] is not one and is kept apart. *)
Inductive Exception : Type :=
| IndexError (msg : string)
| KeyError (key : string)
| ServiceError (msg : string).

(** [str(e)] *)
Definition exn_str (e : Exception) : string :=
  match e with
  | IndexError msg => msg
  | KeyError key => "'" ++ key ++ "'"
  | ServiceError msg => msg
  end.

Inductive Outcome (A : Type) : Type :=
| Returned (a : A)
| Raised (e : Exception).
Arguments Returned {A} a.
Arguments Raised {A} e.

(** ** Configuration (the parsed [prompts_config.json]) *)

Module Dict.

(** A Python [dict] with string keys, in insertion order. *)
Definition t (A : Type) : Type := list (string * A).

Fixpoint lookup {A : Type} (d : t A) (k : string) : option A :=
  match d with
  | [] => None
  | (k', v) :: d' => if String.eqb k' k then Some v else lookup d' k
  end.

(** [d.get(k, default)] *)
Definition get {A : Type} (d : t A) (k : string) (default : A) : A :=
  match lookup d k with
  | Some v => v
  | None => default
  end.

(** [k in d] *)
Definition mem {A : Type} (d : t A) (k : string) : bool :=
  match lookup d k with
  | Some _ => true
  | None => false
  end.

Definition keys {A : Type} (d : t A) : list string := map fst d.

(** [d[k] = v] *)
Fixpoint set {A : Type} (d : t A) (k : string) (v : A) : t A :=
  match d with
  | [] => [(k, v)]
  | (k', v') :: d' =>
      if String.eqb k' k then (k', v) :: d' else (k', v') :: set d' k v
  end.

End Dict.

(** A value of the template dictionary: a JSON scalar (floats left out). *)
Inductive Value : Type :=
| VStr (s : string)
| VInt (z : Z)
| VBool (b : bool)
| VNull.

(** [str(value)] *)
Definition str (v : Value) : string :=
  match v with
  | VStr s => s
  | VInt z => str_of_Z z
  | VBool true => "True"
  | VBool false => "False"
  | VNull => "None"
  end.

(** One entry of [prompts_config] / [prompts_config_final].
    [pd_other_keys] says whether the JSON object has keys besides
    ["prompt"] and ["instructions"]. *)
Record PromptData : Type := {
  prompt : option string;
  instructions : option string;
  pd_other_keys : bool
}.

Record DefaultSettings : Type := {
  base_instruction : option string;
  base_instruction_final : option string
}.

Record Config : Type := {
  prompts_config : option (Dict.t PromptData);
  prompts_config_final : option (Dict.t PromptData);
  template_dictionary : option (Dict.t Value);
  default_settings : option DefaultSettings
}.

(** ** Template resolver (the same text in both scripts) *)

Definition substitute (result : string) (kv : string * Value) : string :=
  let placeholder := "{" ++ fst kv ++ "}" in
  replace result placeholder (str (snd kv)).

(** [config] is [None] for Python's [None].  An empty dict, the other
    falsy configuration, has no ["template_dictionary"] key either, so
    both disjuncts of the guard come to the second match. *)
Definition replace_template_variables (text : string) (config : option Config)
  : string :=
  match config with
  | None => text
  | Some cfg =>
      match template_dictionary cfg with
      | None => text
      | Some template_dict => fold_left substitute template_dict text
      end
  end.

(** ** The search response, as far as the scripts look into it

    An [option] field is [None] when the attribute is missing or falsy,
    which is what the [hasattr(x, 'f') and x.f] guards of the scripts test.
    A summary can be present with an empty text, as when the service
    skipped the summary and says why. *)

Record Document : Type := {
  id : option string;
  struct_data : option (Dict.t string)
}.

Record SearchResult : Type := { document : Document }.

Record CitationSource : Type := {
  reference_id : option string;
  uri : option string
}.

Record Citation : Type := { sources : list CitationSource }.

Record SummaryWithMetadata : Type := { citations : option (list Citation) }.

Record Summary : Type := {
  summary_text : string;
  summary_with_metadata : option SummaryWithMetadata
}.

Record Response : Type := {
  results : list SearchResult;
  summary : option Summary
}.

(** What a run writes to the console.  [Displayed r] stands for the block
    of lines [display_results(r)] prints. *)
Inductive Out : Type :=
| Printed (line : string)
| Prompted (text : string)
| Displayed (r : Response).

(** Console output together with a result or an exception. *)
Definition IO (A : Type) : Type := (list Out * Outcome A)%type.

Definition ret {A : Type} (a : A) : IO A := ([], Returned a).

Definition raise {A : Type} (e : Exception) : IO A := ([], Raised e).

Definition lift {A : Type} (o : Outcome A) : IO A := ([], o).

Definition print (line : string) : IO unit := ([Printed line], Returned tt).

Definition bind {A B : Type} (m : IO A) (k : A -> IO B) : IO B :=
  match m with
  | (out, Returned a) => let (out', r) := k a in ((out ++ out')%list, r)
  | (out, Raised e) => (out, Raised e)
  end.

(** [try: m  except Exception as e: handler e] *)
Definition try_except {A : Type} (m : IO A) (handler : Exception -> IO A)
  : IO A :=
  match m with
  | (out, Returned a) => (out, Returned a)
  | (out, Raised e) => let (out', r) := handler e in ((out ++ out')%list, r)
  end.

Notation "x <- m ;; k" := (bind m (fun x => k))
  (at level 61, m at next level, right associativity).
Notation "m ;; k" := (bind m (fun _ => k))
  (at level 61, right associativity).

(** [extract_document_name] (the same text in both scripts) *)
Definition extract_document_name (uri : string) : string :=
  if negb (nonempty uri) then "Document inconnu"
  else
    let filename := last_segment uri in
    if nonempty filename then unquote filename
    else "Document sans nom".

(** [list_available_variables] (the same text in both scripts) *)
Definition list_section (title : string) (section : option (Dict.t PromptData))
  : list Out * list string :=
  match section with
  | None => ([], [])
  | Some d =>
      (Printed title :: map (fun key => Printed ("  • " ++ key)) (Dict.keys d),
       Dict.keys d)
  end.

Definition list_available_variables (config : option Config)
  : list Out * list string :=
  match config with
  | None => ([], [])
  | Some cfg =>
      let (out1, vars1) :=
        list_section (nl ++ "🔹 VARIABLES PRINCIPALES:") (prompts_config cfg) in
      let (out2, vars2) :=
        list_section (nl ++ "🔹 VARIABLES FINALES:") (prompts_config_final cfg) in
      ((Printed "📋 VARIABLES DISPONIBLES:" :: Printed (repeat_string "=" 50)
          :: out1 ++ out2)%list,
       (vars1 ++ vars2)%list)
  end.

(** The name shown in a listing of results ([display_results], and the
    first-results listing of [execute_prompt]): the URI, else the title. *)
Definition listed_doc_name (doc : Document) : string :=
  let doc_name := "Document inconnu" in
  match struct_data doc with
  | Some ((_ :: _) as sd) =>
      let uri := Dict.get sd "uri" EmptyString in
      if nonempty uri then extract_document_name uri
      else
        let title := Dict.get sd "title" EmptyString in
        if nonempty title then title else doc_name
  | _ => doc_name
  end.

(** [source.uri] when the attribute is there and truthy *)
Definition source_uri (source : CitationSource) : option string :=
  match uri source with
  | Some u => if nonempty u then Some u else None
  | None => None
  end.

(** [name not in names] guards every addition: a Python set, kept in the
    order of first addition. *)
Definition add_name (names : list string) (name : string) : list string :=
  if existsb (String.eqb name) names then names else (names ++ [name])%list.

(** What [open] and [json.load] make of prompts_config.json.
    [Parsed None] is a JSON value that is falsy in Python. *)
Inductive ConfigFile : Type :=
| FileNotFound
| InvalidJSON
| Parsed (config : option Config).

(** [load_prompts_config] (the same text in both scripts) *)
Definition load_prompts_config (file : ConfigFile) : list Out * option Config :=
  match file with
  | FileNotFound =>
      ([Printed "❌ Erreur: Fichier prompts_config.json non trouvé"], None)
  | InvalidJSON =>
      ([Printed "❌ Erreur: Format JSON invalide dans prompts_config.json"],
       None)
  | Parsed config => ([], config)
  end.

(** ** The interactive loop: input events and loop states *)

Inductive InputEvent : Type :=
| Entered (line : string)          (* [input()] returns a line *)
| CtrlC                            (* [input()] raises KeyboardInterrupt *)
| InputFailure (e : Exception).    (* [input()] raises an Exception *)

(** How the execution of a prompt ends, seen from the loop. *)
Inductive Signal : Type :=
| Completed
| Failed (e : Exception)
| Interrupted.

Inductive Control : Type := Continue | Break.

Inductive LoopState : Type :=
| Awaiting                                (* blocked in [input()] *)
| Terminated (unread : list InputEvent).  (* left the loop *)

Definition is_quit (choice : string) : bool :=
  existsb (String.eqb (lower choice)) ["quit"; "exit"; "q"].

Definition is_list (choice : string) : bool :=
  String.eqb (lower choice) "list".

Definition farewell : string := "👋 Au revoir !".

(** The normalized entry: [input(...).strip().upper()]. *)
Definition choice_of (line : string) : string := upper (strip line).

(** The entry reaches the branch that executes a prompt: it is none of the
    commands and it is one of the available keys. *)
Definition selects (available_vars : list string) (choice : string) : bool :=
  negb (is_quit choice) && negb (is_list choice)
  && existsb (String.eqb choice) available_vars.

Definition input_prompt : string := nl ++ "Variable > ".

(** The events on which the loop of the advanced script stops: an
    interrupt at the prompt, an entry that reads quit, exit or q once
    normalized and put in lower case, and an interrupt during the
    execution of an available key. *)
Definition stops_advanced_loop (execute : string -> list Out * Signal)
  (available_vars : list string) (ev : InputEvent) : Prop :=
  match ev with
  | CtrlC => True
  | InputFailure _ => False
  | Entered line =>
      In (lower (choice_of line)) ["quit"; "exit"; "q"]
      \/ (lower (choice_of line) <> "list"
          /\ In (choice_of line) available_vars
          /\ snd (execute (choice_of line)) = Interrupted)
  end.

Definition not_found (choice : string) : string :=
  "❌ Variable '" ++ choice
  ++ "' non trouvée. Tapez 'list' pour voir les variables disponibles.".

(** ** advanced_research.py *)

Module Advanced.

Definition synonym_mappings : Dict.t (Dict.t string) :=
  [ ("CHIFFRE_AFFAIRES",
     [ ("chiffre d'affaires", "chiffre d'affaires revenus ventes turnover CA recettes");
       ("évolution", "évolution croissance progression variation développement");
       ("Reno Energy", "Reno Energy entreprise société") ]);
    ("CONCURRENCE",
     [ ("concurrence", "concurrence concurrents compétiteurs acteurs marché rivals");
       ("positionnement", "positionnement stratégie différenciation avantage");
       ("marché", "marché secteur industrie segment écosystème") ]);
    ("MARGE_BRUTE",
     [ ("marge", "marge brute profitabilité rentabilité margin profit");
       ("coûts", "coûts charges dépenses frais prix revient") ]);
    ("OPERATION",
     [ ("acquisition", "acquisition rachat investissement opération transaction deal");
       ("valorisation", "valorisation valeur prix montant évaluation");
       ("EODEN", "EODEN investisseur acquéreur fonds") ]);
    ("PERSONNE_CLE",
     [ ("dirigeants", "dirigeants management équipe leadership team");
       ("profil", "profil expérience parcours background") ]) ].

Definition technical_terms : Dict.t string :=
  [ ("CHIFFRE_AFFAIRES", "Reno Energy chiffre affaires revenue financier EODEN 2024");
    ("CONCURRENCE", "Reno Energy concurrence competitive marché secteur 2024");
    ("MARGE_BRUTE", "Reno Energy marge profitabilité coûts rentabilité");
    ("OPERATION", "Reno Energy acquisition EODEN transaction opération investissement 2024");
    ("PERSONNE_CLE", "Reno Energy management dirigeants équipe direction") ].

Definition short_terms : Dict.t string :=
  [ ("CHIFFRE_AFFAIRES", "Reno Energy chiffre affaires EODEN 2024");
    ("CONCURRENCE", "Reno Energy concurrents marché 2024");
    ("MARGE_BRUTE", "Reno Energy marge rentabilité");
    ("OPERATION", "Reno Energy acquisition EODEN 2024");
    ("PERSONNE_CLE", "Reno Energy dirigeants management") ].

Definition priority_terms : Dict.t string :=
  [ ("CHIFFRE_AFFAIRES", "financier chiffre affaires revenue CA 2024 2023");
    ("CONCURRENCE", "marché concurrence competitive secteur 2024");
    ("OPERATION", "acquisition EODEN opération transaction investissement 2024");
    ("MARGE_BRUTE", "marge profitabilité rentabilité coûts");
    ("PERSONNE_CLE", "management équipe dirigeants organigramme");
    ("MARCHE", "marché secteur énergies renouvelables photovoltaïque");
    ("PRESENTATION", "présentation profil entreprise société Reno Energy") ].

Definition create_enhanced_query_with_context (base_query prompt_type : string)
  : string :=
  let enhanced_query :=
    match Dict.lookup priority_terms prompt_type with
    | Some terms => base_query ++ " " ++ terms
    | None => base_query
    end in
  enhanced_query ++ " EODEN 2024 2023".

(** The body of the loop over the synonym pairs of the category. *)
Definition enrich_step (enriched_query : string) (pair : string * string)
  : string :=
  let (term, synonyms) := pair in
  if contains (lower term) (lower enriched_query)
  then replace enriched_query term synonyms
  else enriched_query.

Definition enriched_variant (base_query prompt_type : string) : string :=
  let enriched_query :=
    match Dict.lookup synonym_mappings prompt_type with
    | Some pairs => fold_left enrich_step pairs base_query
    | None => base_query
    end in
  create_enhanced_query_with_context enriched_query prompt_type.

Definition technical_variant (base_query prompt_type : string) : string :=
  base_query ++ " " ++ Dict.get technical_terms prompt_type "Reno Energy 2024".

(** The default handed to [short_terms.get] is an argument of the call:
    [base_query.split()[0]] is evaluated, and raises on a query without a
    token, whether or not the category has an entry. *)
Definition create_optimized_queries (base_query prompt_type : string)
  : Outcome (list string) :=
  let enriched_query := enriched_variant base_query prompt_type in
  let technical_query := technical_variant base_query prompt_type in
  match split base_query with
  | [] => Raised (IndexError "list index out of range")
  | first :: _ =>
      let default := "Reno Energy " ++ first ++ " 2024" in
      let short_query := Dict.get short_terms prompt_type default in
      Returned [enriched_query; technical_query; short_query]
  end.

Record SearchRequest : Type := {
  serving_config : string;
  query : string;
  page_size : nat;
  return_snippet : bool;
  max_snippet_count : nat;
  summary_result_count : nat;
  include_citations : bool;
  ignore_adversarial_query : bool;
  ignore_non_summary_seeking_query : bool;
  preamble : string;
  query_expansion_auto : bool;
  spell_correction_auto : bool;
  safe_search : bool
}.

Definition create_optimized_request
  (query prompt_type system_prompt serving_config : string) : SearchRequest :=
  {| serving_config := serving_config;
     query := query;
     page_size := 25;
     return_snippet := true;
     max_snippet_count := 5;
     summary_result_count := 20;
     include_citations := true;
     ignore_adversarial_query := true;
     ignore_non_summary_seeking_query := false;
     preamble := system_prompt;
     query_expansion_auto := true;
     spell_correction_auto := true;
     safe_search := true |}.

(** [client] is the [search] method of the service client. *)
Definition execute_single_search
  (client : SearchRequest -> Outcome Response) (request : SearchRequest)
  : IO (option Response) :=
  match client request with
  | Returned response => ret (Some response)
  | Raised e =>
      print ("⚠️  Erreur de recherche: " ++ exn_str e) ;; ret None
  end.

Definition result_count (response : Response) : nat :=
  List.length (results response).

Definition has_summary (response : Response) : bool :=
  match summary response with
  | Some s => nonempty (summary_text s)
  | None => false
  end.

Definition citation_count (response : Response) : nat :=
  match summary response with
  | Some s =>
      match summary_with_metadata s with
      | Some m =>
          match citations m with
          | Some cs => List.length cs
          | None => 0
          end
      | None => 0
      end
  | None => 0
  end.

Definition score (response : Response) : nat :=
  result_count response * 2 + (if has_summary response then 50 else 0)
  + citation_count response * 10.

(** The loop state is the pair [(best_response, best_score)]. *)
Definition select_step (st : option Response * nat) (response : option Response)
  : option Response * nat :=
  match response with
  | None => st
  | Some r => if snd st <? score r then (Some r, score r) else st
  end.

Definition select_best_result (responses : list (option Response))
  : option Response :=
  fst (fold_left select_step responses (None, 0)).

(** The world outside the script during one call of
    [execute_optimized_prompt]. *)
Record World : Type := {
  (* reading config.json and building the service client *)
  load_client : Outcome unit;
  (* [client.search] on the request submitted in the given slot *)
  search : nat -> SearchRequest -> Outcome Response;
  (* the order in which [as_completed] yields the submitted futures *)
  completion_order : list nat
}.

Definition PROJECT_ID : string := "eoden-465407".
Definition DATA_STORE_ID : string := "eoden-store-v2_1753786474509".
Definition LOCATION : string := "global".

Definition the_serving_config : string :=
  "projects/" ++ PROJECT_ID ++ "/locations/" ++ LOCATION ++ "/dataStores/"
  ++ DATA_STORE_ID ++ "/servingConfigs/default_config".

Fixpoint submit_all (w : World) (slot : nat) (requests : list SearchRequest)
  : list (IO (option Response)) :=
  match requests with
  | [] => []
  | request :: rest =>
      execute_single_search (search w slot) request :: submit_all w (S slot) rest
  end.

(** [for future in as_completed(futures): responses.append(future.result())] *)
Fixpoint collect (futures : list (IO (option Response))) (order : list nat)
  : IO (list (option Response)) :=
  match order with
  | [] => ret []
  | i :: rest =>
      match nth_error futures i with
      | Some future =>
          response <- future ;;
          responses <- collect futures rest ;;
          ret (response :: responses)
      | None => collect futures rest
      end
  end.

(** A dict is truthy when it has a key. *)
Definition pd_truthy (pd : PromptData) : bool :=
  match prompt pd, instructions pd with
  | None, None => pd_other_keys pd
  | _, _ => true
  end.

(** [config.get(section, {}).get(prompt_key)], when truthy *)
Definition find_prompt (section : option (Dict.t PromptData)) (prompt_key : string)
  : option PromptData :=
  match section with
  | None => None
  | Some d =>
      match Dict.lookup d prompt_key with
      | Some pd => if pd_truthy pd then Some pd else None
      | None => None
      end
  end.

Definition setting (config : Config) (field : DefaultSettings -> option string)
  (default : string) : string :=
  match default_settings config with
  | Some ds => match field ds with Some v => v | None => default end
  | None => default
  end.

Definition system_prompt_of (prompt_key : string) (config : Config)
  (instructions : string) : string :=
  let base := setting config base_instruction EmptyString in
  let base :=
    match prompts_config_final config with
    | Some d =>
        if Dict.mem d prompt_key
        then setting config base_instruction_final base else base
    | None => base
    end in
  if nonempty instructions then base ++ nl ++ nl ++ instructions else base.

Definition locate_prompt (config : Config) (prompt_key : string)
  : option PromptData :=
  match find_prompt (prompts_config config) prompt_key with
  | Some pd => Some pd
  | None => find_prompt (prompts_config_final config) prompt_key
  end.

(** The body of the [try] block of [execute_optimized_prompt].  The
    warnings of the failed requests are listed in completion order. *)
Definition search_and_select (w : World) (prompt_key base_query
  system_prompt : string) : IO (option Response) :=
  lift (load_client w) ;;
  optimized_queries <- lift (create_optimized_queries base_query prompt_key) ;;
  let requests :=
    map (fun query =>
           create_optimized_request query prompt_key system_prompt
             the_serving_config)
        optimized_queries in
  responses <- collect (submit_all w 0 requests) (completion_order w) ;;
  match select_best_result responses with
  | None => print "❌ Aucun résultat obtenu" ;; ret None
  | Some best_response =>
      (([Displayed best_response], Returned tt) : IO unit) ;;
      ret (Some best_response)
  end.

Definition execute_optimized_prompt (w : World) (prompt_key : string)
  (config : Config) : IO (option Response) :=
  match locate_prompt config prompt_key with
  | None =>
      print ("❌ Variable '" ++ prompt_key ++ "' non trouvée") ;; ret None
  | Some prompt_data =>
      match prompt prompt_data with
      | None => raise (KeyError "prompt")
      | Some prompt_text =>
          let base_query :=
            replace_template_variables prompt_text (Some config) in
          let instructions :=
            replace_template_variables
              (match instructions prompt_data with
               | Some i => i
               | None => EmptyString
               end)
              (Some config) in
          let system_prompt := system_prompt_of prompt_key config instructions in
          print ("🎯 Variable: " ++ prompt_key) ;;
          print (repeat_string "=" 60) ;;
          try_except
            (search_and_select w prompt_key base_query system_prompt)
            (fun e => print ("❌ Erreur: " ++ exn_str e) ;; ret None)
      end
  end.

(** The slot of a request in the gathered sequence: the response, or
    [None] when the request failed. *)
Definition response_of (o : Outcome Response) : option Response :=
  match o with
  | Returned response => Some response
  | Raised _ => None
  end.

(** The responses gathered from the submitted requests, in completion
    order. *)
Definition gathered (w : World) (requests : list SearchRequest)
  (order : list nat) : list (option Response) :=
  flat_map
    (fun i =>
       match nth_error requests i with
       | Some request => [response_of (search w i request)]
       | None => []
       end)
    order.

Definition is_printed (o : Out) : Prop :=
  match o with
  | Printed _ => True
  | _ => False
  end.

(** One turn of the [while True] loop of [main]: the turn's output and
    whether the loop goes on.  [execute choice] is the call
    [execute_optimized_prompt(choice, config)]. *)
Definition iteration (execute : string -> list Out * Signal) (config : Config)
  (available_vars : list string) (ev : InputEvent) : list Out * Control :=
  match ev with
  | CtrlC => ([Printed (nl ++ farewell)], Break)
  | InputFailure e => ([Printed (nl ++ "❌ Erreur: " ++ exn_str e)], Continue)
  | Entered line =>
      let choice := choice_of line in
      if is_quit choice then ([Printed farewell], Break)
      else if is_list choice
      then (fst (list_available_variables (Some config)), Continue)
      else if existsb (String.eqb choice) available_vars then
        let (out, signal) := execute choice in
        match signal with
        | Completed => (Printed EmptyString :: out, Continue)
        | Failed e =>
            ((Printed EmptyString :: out
                ++ [Printed (nl ++ "❌ Erreur: " ++ exn_str e)])%list,
             Continue)
        | Interrupted =>
            ((Printed EmptyString :: out ++ [Printed (nl ++ farewell)])%list,
             Break)
        end
      else ([Printed (not_found choice)], Continue)
  end.

Fixpoint main_loop (execute : string -> list Out * Signal) (config : Config)
  (available_vars : list string) (inputs : list InputEvent)
  : list Out * LoopState :=
  match inputs with
  | [] => ([Prompted input_prompt], Awaiting)
  | ev :: rest =>
      let (out, control) := iteration execute config available_vars ev in
      match control with
      | Break => (Prompted input_prompt :: out, Terminated rest)
      | Continue =>
          let (out', st) := main_loop execute config available_vars rest in
          ((Prompted input_prompt :: out ++ out')%list, st)
      end
  end.

(** [execute_optimized_prompt] as the loop calls it. *)
Definition run_prompt (w : World) (config : Config) (choice : string)
  : list Out * Signal :=
  match execute_optimized_prompt w choice config with
  | (out, Returned _) => (out, Completed)
  | (out, Raised e) => (out, Failed e)
  end.

(** The names [display_results] prints under the summary: the documents
    of the citation sources, each once, in the order met. *)
Definition cite_source (cited_docs : list string) (source : CitationSource)
  : list string :=
  match source_uri source with
  | Some u => add_name cited_docs (extract_document_name u)
  | None => cited_docs
  end.

Definition cited_documents (citations : list Citation) : list string :=
  fold_left
    (fun cited_docs citation => fold_left cite_source (sources citation) cited_docs)
    citations [].

(** The outcome of each submitted request, by slot. *)
Fixpoint slot_outcomes (w : World) (slot : nat) (requests : list SearchRequest)
  : list (option Response) :=
  match requests with
  | [] => []
  | request :: rest =>
      response_of (search w slot request) :: slot_outcomes w (S slot) rest
  end.

(** The score of the selected response, 0 when none is selected. *)
Definition selected_score (responses : list (option Response)) : nat :=
  match select_best_result responses with
  | Some best => score best
  | None => 0
  end.

(** [main]: [execute config choice] is the call
    [execute_optimized_prompt(choice, config)]; a return of [main] leaves
    the inputs unread. *)
Definition main (file : ConfigFile)
  (execute : Config -> string -> list Out * Signal)
  (inputs : list InputEvent) : list Out * LoopState :=
  let banner :=
    [Printed "🚀 EODEN - Recherche Ultra-Optimisée";
     Printed (repeat_string "=" 60)] in
  match load_prompts_config file with
  | (out, None) =>
      ((banner ++ out
          ++ [Printed "❌ Impossible de charger la configuration"])%list,
       Terminated inputs)
  | (out, Some config) =>
      let (listing, available_vars) :=
        list_available_variables (Some config) in
      match available_vars with
      | [] =>
          ((banner ++ out ++ listing
              ++ [Printed "❌ Aucune variable trouvée"])%list,
           Terminated inputs)
      | _ :: _ =>
          let (out', st) :=
            main_loop (execute config) config available_vars inputs in
          ((banner ++ out ++ listing
              ++ [Printed (nl ++ "Entrez le nom de la variable à rechercher:");
                  Printed "(ou tapez 'list' pour revoir la liste)"]
              ++ out')%list,
           st)
      end
  end.

End Advanced.

(** ** eoden_simple_prompt.py *)

Module Simple.

(** The name a document gets in [document_mapping] (in [execute_prompt]). *)
Definition mapping_doc_name (doc : Document) : string :=
  let doc_name := "Document inconnu" in
  match struct_data doc with
  | Some ((_ :: _) as sd) =>
      let uri := Dict.get sd "uri" EmptyString in
      let doc_name :=
        if nonempty uri then extract_document_name uri else doc_name in
      if String.eqb doc_name "Document inconnu" || negb (nonempty doc_name)
      then
        let title := Dict.get sd "title" EmptyString in
        if nonempty title then title
        else
          let name := Dict.get sd "name" EmptyString in
          if nonempty name then name else doc_name
      else doc_name
  | _ => doc_name
  end.

Definition document_mapping (results : list SearchResult) : Dict.t string :=
  fold_left
    (fun mapping result =>
       let doc := document result in
       match id doc with
       | Some reference_id =>
           if nonempty reference_id
           then Dict.set mapping reference_id (mapping_doc_name doc)
           else mapping
       | None => mapping
       end)
    results [].

(** One turn of the [while True] loop of [main].  [execute choice] is the
    call [execute_prompt(choice, config)]. *)
Definition iteration (execute : string -> list Out * Signal) (config : Config)
  (available_vars : list string) (ev : InputEvent) : list Out * Control :=
  match ev with
  | CtrlC => ([Printed (nl ++ farewell)], Break)
  | InputFailure e => ([Printed (nl ++ "❌ Erreur: " ++ exn_str e)], Continue)
  | Entered line =>
      let choice := choice_of line in
      if is_quit choice then ([Printed farewell], Break)
      else if is_list choice
      then (fst (list_available_variables (Some config)), Continue)
      else if existsb (String.eqb choice) available_vars then
        let (out, signal) := execute choice in
        match signal with
        | Completed => (Printed EmptyString :: out, Break)
        | Failed e =>
            ((Printed EmptyString :: out
                ++ [Printed (nl ++ "❌ Erreur: " ++ exn_str e)])%list,
             Continue)
        | Interrupted =>
            ((Printed EmptyString :: out ++ [Printed (nl ++ farewell)])%list,
             Break)
        end
      else ([Printed (not_found choice)], Continue)
  end.

Fixpoint main_loop (execute : string -> list Out * Signal) (config : Config)
  (available_vars : list string) (inputs : list InputEvent)
  : list Out * LoopState :=
  match inputs with
  | [] => ([Prompted input_prompt], Awaiting)
  | ev :: rest =>
      let (out, control) := iteration execute config available_vars ev in
      match control with
      | Break => (Prompted input_prompt :: out, Terminated rest)
      | Continue =>
          let (out', st) := main_loop execute config available_vars rest in
          ((Prompted input_prompt :: out ++ out')%list, st)
      end
  end.

(** The sources of the citations, as [execute_prompt] names them: by the
    reference id when the mapping knows it, else by the source URI. *)
Definition resolve_source (mapping : Dict.t string) (source : CitationSource)
  : option string :=
  let by_id :=
    match reference_id source with
    | Some ref_id =>
        if nonempty ref_id then Dict.lookup mapping ref_id else None
    | None => None
    end in
  match by_id with
  | Some doc_name => Some doc_name
  | None => option_map extract_document_name (source_uri source)
  end.

Definition add_source (mapping : Dict.t string) (names : list string)
  (source : CitationSource) : list string :=
  match resolve_source mapping source with
  | Some doc_name => add_name names doc_name
  | None => names
  end.

(** The set [citation_sources], in the order of first addition. *)
Definition citation_sources (mapping : Dict.t string)
  (citations : list Citation) : list string :=
  fold_left
    (fun names citation => fold_left (add_source mapping) (sources citation) names)
    citations [].

(** The name in the closing list of relevant documents: the URI alone. *)
Definition relevant_doc_name (doc : Document) : string :=
  let doc_name := "Document" in
  match struct_data doc with
  | Some ((_ :: _) as sd) =>
      let uri := Dict.get sd "uri" EmptyString in
      if nonempty uri then extract_document_name uri else doc_name
  | _ => doc_name
  end.

(** [main]: [execute config choice] is the call
    [execute_prompt(choice, config)]; a return of [main] leaves the inputs
    unread. *)
Definition main (file : ConfigFile)
  (execute : Config -> string -> list Out * Signal)
  (inputs : list InputEvent) : list Out * LoopState :=
  let banner :=
    [Printed "🚀 EODEN - Test Variable Prompt";
     Printed (repeat_string "=" 60)] in
  match load_prompts_config file with
  | (out, None) =>
      ((banner ++ out
          ++ [Printed "❌ Impossible de charger la configuration des prompts"])%list,
       Terminated inputs)
  | (out, Some config) =>
      let (listing, available_vars) :=
        list_available_variables (Some config) in
      match available_vars with
      | [] =>
          ((banner ++ out ++ listing
              ++ [Printed "❌ Aucune variable trouvée dans la configuration"])%list,
           Terminated inputs)
      | _ :: _ =>
          let (out', st) :=
            main_loop (execute config) config available_vars inputs in
          ((banner ++ out ++ listing
              ++ [Printed (nl ++ "Entrez le nom de la variable à tester:");
                  Printed "(ou tapez 'list' pour revoir la liste)"]
              ++ out')%list,
           st)
      end
  end.

End Simple.

(** ** What the specification says, for comparison with the code *)

Module SpecWords.

(** Replace the first occurrence of [term] in [query], matched without
    regard to case. *)
Definition replace_first_ci (query term synonyms : string) : string :=
  match find (lower term) (lower query) with
  | Some i =>
      substring 0 i query ++ synonyms
      ++ substring (i + String.length term)
           (String.length query - (i + String.length term)) query
  | None => query
  end.

End SpecWords.

(** ** Texts read as parts around the occurrences of a substring *)

(** [parts] with [sep] after each of them, then [last]. *)
Fixpoint join_with (sep : string) (parts : list string) (last : string)
  : string :=
  match parts with
  | [] => last
  | part :: rest => part ++ sep ++ join_with sep rest last
  end.

(** [join_with old parts last] is the text cut at its occurrences of [old]
    as a scan from the left meets them: each part ends where [old] occurs
    next in the rest of the text, and [last] holds no occurrence. *)
Fixpoint leftmost_occurrences (old : string) (parts : list string)
  (last : string) : Prop :=
  match parts with
  | [] => find old last = None
  | part :: rest =>
      find old (part ++ old ++ join_with old rest last)
      = Some (String.length part)
      /\ leftmost_occurrences old rest last
  end.

(** [c not in s] *)
Fixpoint lacks (c : ascii) (s : string) : bool :=
  match s with
  | EmptyString => true
  | String d s' => negb (Ascii.eqb d c) && lacks c s'
  end.

(** A placeholder name that holds no brace. *)
Definition brace_free (name : string) : bool :=
  lacks "{"%char name && lacks "}"%char name.

Import Advanced.

(** ** Sample values *)

Module Sample.

Definition doc : SearchResult :=
  {| document := {| id := None; struct_data := None |} |}.

(** No result and no summary. *)
Definition empty_response : Response := {| results := []; summary := None |}.

(** No result and a summary object without text. *)
Definition blank_summary_response : Response :=
  {| results := [];
     summary := Some {| summary_text := EmptyString;
                        summary_with_metadata := None |} |}.

(** resultCount = 5, summaryText empty. *)
Definition five_results : Response :=
  {| results := repeat doc 5;
     summary := Some {| summary_text := EmptyString;
                        summary_with_metadata := None |} |}.

(** resultCount = 1, a summary, citationCount = 2. *)
Definition cited_summary : Response :=
  {| results := [doc];
     summary :=
       Some {| summary_text := "Résumé";
               summary_with_metadata :=
                 Some {| citations := Some [ {| sources := [] |};
                                             {| sources := [] |} ] |} |} |}.

Definition request_for (query : string) : SearchRequest :=
  create_optimized_request query "MARGE_BRUTE" EmptyString the_serving_config.

Definition three_requests : list SearchRequest :=
  [request_for "q1"; request_for "q2"; request_for "q3"].

(** The first request fails, the other two find nothing. *)
Definition world_failure_and_nothing_found : World :=
  {| load_client := Returned tt;
     search := fun slot _ =>
                 match slot with
                 | 0 => Raised (ServiceError "503 Service Unavailable")
                 | _ => Returned empty_response
                 end;
     completion_order := [0; 1; 2] |}.

(** The first request fails, the other two succeed; the third completes
    first. *)
Definition world_one_failure : World :=
  {| load_client := Returned tt;
     search := fun slot _ =>
                 match slot with
                 | 0 => Raised (ServiceError "503 Service Unavailable")
                 | 1 => Returned five_results
                 | _ => Returned cited_summary
                 end;
     completion_order := [2; 0; 1] |}.

Definition config_marge : Config :=
  {| prompts_config :=
       Some [ ("MARGE_BRUTE",
               {| prompt := Some "Quelle est la marge de {company} ?";
                  instructions := None;
                  pd_other_keys := false |}) ];
     prompts_config_final := None;
     template_dictionary := Some [ ("company", VStr "Reno Energy") ];
     default_settings := None |}.

(** Documents as the search service describes them. *)
Definition doc_report : Document :=
  {| id := Some "doc-1";
     struct_data :=
       Some [ ("uri", "gs://bucket/folder/Report%20Final.pdf");
              ("title", "Final report") ] |}.

Definition doc_titled : Document :=
  {| id := Some "doc-2"; struct_data := Some [ ("title", "Q3 Summary") ] |}.

Definition doc_named : Document :=
  {| id := Some "doc-3"; struct_data := Some [ ("name", "balance-sheet") ] |}.

Definition doc_bare : Document :=
  {| id := Some "doc-4"; struct_data := Some [ ("link", "https://x.test/") ] |}.

(** The URI names a folder: it ends with a slash. *)
Definition doc_folder : Document :=
  {| id := Some "doc-5";
     struct_data :=
       Some [ ("uri", "gs://bucket/folder/"); ("title", "Q3 Summary") ] |}.

(** A prompt entry whose text is empty. *)
Definition config_blank : Config :=
  {| prompts_config :=
       Some [ ("CHIFFRE_AFFAIRES",
               {| prompt := Some EmptyString;
                  instructions := Some "Répondre en français.";
                  pd_other_keys := false |}) ];
     prompts_config_final := None;
     template_dictionary := None;
     default_settings := None |}.

Definition config_company_year : Config :=
  {| prompts_config := None;
     prompts_config_final := None;
     template_dictionary :=
       Some [ ("company", VStr "Reno Energy"); ("year", VInt 2024) ];
     default_settings := None |}.

Definition result_of (doc : Document) : SearchResult := {| document := doc |}.

(** Two results carry the same id. *)
Definition results_with_repeated_id : list SearchResult :=
  [ result_of doc_report;
    result_of {| id := Some "doc-1";
                 struct_data := Some [ ("title", "Newer title") ] |};
    result_of doc_titled ].

Definition citations_sample : list Citation :=
  [ {| sources :=
         [ {| reference_id := Some "doc-2";
              uri := Some "gs://bucket/other/Annexe.pdf" |};
           {| reference_id := None;
              uri := Some "gs://bucket/folder/Report%20Final.pdf" |} ] |};
    {| sources :=
         [ {| reference_id := Some "unknown";
              uri := Some "gs://bucket/folder/Report%20Final.pdf" |};
           {| reference_id := None; uri := None |} ] |} ].

(** An entry that has instructions and no prompt text. *)
Definition entry_without_prompt : PromptData :=
  {| prompt := None;
     instructions := Some "Répondre en français.";
     pd_other_keys := false |}.

Definition config_without_prompt : Config :=
  {| prompts_config := Some [ ("BILAN", entry_without_prompt) ];
     prompts_config_final := None;
     template_dictionary := None;
     default_settings := None |}.

Definition entry_of (text : string) : PromptData :=
  {| prompt := Some text; instructions := None; pd_other_keys := false |}.

(** The key BILAN is in both sections. *)
Definition config_both : Config :=
  {| prompts_config := Some [ ("BILAN", entry_of "Quel est le bilan ?") ];
     prompts_config_final := Some [ ("BILAN", entry_of "Bilan final ?") ];
     template_dictionary := None;
     default_settings :=
       Some {| base_instruction := Some "Analyse.";
               base_instruction_final := Some "Synthèse finale." |} |}.

End Sample.

(** * Properties *)

(** ** Strings *)

Section Strings.

Lemma append_nil_r s : s ++ EmptyString = s.
Proof. induction s as [| c s IH]; cbn; [reflexivity | now rewrite IH]. Qed.

Lemma append_assoc a b c : (a ++ b) ++ c = a ++ b ++ c.
Proof. induction a as [| x a IH]; cbn; [reflexivity | now rewrite IH]. Qed.

Lemma prefix_cons_eq c p s : prefix (String c p) (String c s) = prefix p s.
Proof. cbn. destruct (ascii_dec c c); [reflexivity | contradiction]. Qed.

Lemma prefix_cons_neq c d p s :
  c <> d -> prefix (String c p) (String d s) = false.
Proof. intros H. cbn. destruct (ascii_dec c d); [contradiction | reflexivity]. Qed.

Lemma prefix_append p s : prefix p (p ++ s) = true.
Proof.
  induction p as [| c p IH]; cbn [append].
  - destruct s; reflexivity.
  - rewrite prefix_cons_eq. exact IH.
Qed.

Lemma prefix_split p : forall s, prefix p s = true -> exists b, s = p ++ b.
Proof.
  induction p as [| c p IH]; intros s H.
  - exists s. reflexivity.
  - destruct s as [| d s]; [discriminate H |].
    cbn in H. destruct (ascii_dec c d) as [<- |]; [| discriminate H].
    destruct (IH s H) as (b & ->). exists b. reflexivity.
Qed.

Lemma find_cons old c s :
  find old (String c s) =
  if prefix old (String c s) then Some 0 else option_map S (find old s).
Proof. reflexivity. Qed.

Lemma contains_cons sub c s :
  contains sub (String c s) = prefix sub (String c s) || contains sub s.
Proof. reflexivity. Qed.

Lemma contains_split sub : forall s,
  contains sub s = true -> exists a b, s = a ++ sub ++ b.
Proof.
  induction s as [| c s IH]; intros H.
  - destruct sub; [| discriminate H].
    exists EmptyString, EmptyString. reflexivity.
  - rewrite contains_cons in H. apply orb_true_iff in H as [H | H].
    + destruct (prefix_split _ _ H) as (b & Hb).
      exists EmptyString, b. exact Hb.
    + destruct (IH H) as (a & b & ->). exists (String c a), b. reflexivity.
Qed.

Lemma contains_prefix sub s : prefix sub s = true -> contains sub s = true.
Proof. intros H. destruct s; cbn [contains]; rewrite H; reflexivity. Qed.

Lemma contains_append sub a : forall b, contains sub (a ++ sub ++ b) = true.
Proof.
  induction a as [| c a IH]; intros b; cbn [append].
  - apply contains_prefix, prefix_append.
  - rewrite contains_cons, IH. apply orb_true_r.
Qed.

(** *** [str.replace] *)

Lemma replace_from_skip old new u : forall v,
  replace_from old new (String.length u) (u ++ v) = replace_from old new 0 v.
Proof.
  induction u as [| c u IH]; intros v; cbn.
  - destruct v; reflexivity.
  - apply IH.
Qed.

(** At an occurrence the scan emits [new] and resumes behind it. *)
Lemma replace_from_hit old new b :
  old <> EmptyString ->
  replace_from old new 0 (old ++ b) = new ++ replace_from old new 0 b.
Proof.
  intros Hold. destruct old as [| c p]; [contradiction |].
  cbn [append replace_from]. rewrite prefix_cons_eq, prefix_append.
  replace (String.length (String c p) - 1) with (String.length p)
    by (cbn [String.length]; lia).
  now rewrite replace_from_skip.
Qed.

(** A text without occurrence is left as it is. *)
Lemma replace_from_no_occurrence old new s :
  find old s = None -> replace_from old new 0 s = s.
Proof.
  induction s as [| c s IH]; intros H; [reflexivity |].
  rewrite find_cons in H. cbn [replace_from].
  destruct (prefix old (String c s)); [discriminate H |].
  destruct (find old s); [discriminate H |].
  now rewrite IH.
Qed.

(** Up to the leftmost occurrence the text is copied. *)
Lemma replace_from_leftmost old new a : forall b,
  old <> EmptyString ->
  find old (a ++ old ++ b) = Some (String.length a) ->
  replace_from old new 0 (a ++ old ++ b)
  = a ++ new ++ replace_from old new 0 b.
Proof.
  induction a as [| c a IH]; intros b Hold H.
  - cbn [append]. now apply replace_from_hit.
  - cbn [append String.length] in *. rewrite find_cons in H.
    cbn [replace_from].
    destruct (prefix old (String c (a ++ old ++ b))); [discriminate H |].
    destruct (find old (a ++ old ++ b)) as [i |] eqn:Hi; [| discriminate H].
    cbn in H. injection H as ->. now rewrite IH.
Qed.

Lemma replace_nonempty s old new :
  old <> EmptyString -> replace s old new = replace_from old new 0 s.
Proof. unfold replace. destruct old; [contradiction | reflexivity]. Qed.

Lemma replace_no_occurrence s old new :
  old <> EmptyString -> find old s = None -> replace s old new = s.
Proof.
  intros Hold H. rewrite (replace_nonempty _ _ _ Hold).
  now apply replace_from_no_occurrence.
Qed.

(** Every occurrence met by the scan is replaced. *)
Lemma replace_join old new parts : forall last,
  old <> EmptyString ->
  leftmost_occurrences old parts last ->
  replace (join_with old parts last) old new = join_with new parts last.
Proof.
  intros last Hold. rewrite (replace_nonempty _ _ _ Hold).
  induction parts as [| part rest IH]; cbn [join_with leftmost_occurrences].
  - apply replace_from_no_occurrence.
  - intros [Hfirst Hrest].
    rewrite (replace_from_leftmost _ _ part _ Hold Hfirst). now rewrite IH.
Qed.

(** *** Placeholders: a name between braces *)

Lemma lacks_append c a b : lacks c (a ++ b) = lacks c a && lacks c b.
Proof.
  induction a as [| x a IH]; cbn; [reflexivity |].
  now rewrite IH, andb_assoc.
Qed.

Lemma lacks_head c x s : lacks c (String x s) = true -> x <> c /\ lacks c s = true.
Proof.
  cbn. intros H. apply andb_true_iff in H as [Hx Hs]. split; [| exact Hs].
  intros ->. rewrite Ascii.eqb_refl in Hx. discriminate Hx.
Qed.

(** A string without [c] that is a prefix of [a ++ c...] ends within [a]. *)
Lemma prefix_ends_before c w : forall a rest,
  lacks c w = true ->
  prefix w (a ++ String c rest) = true ->
  String.length w <= String.length a.
Proof.
  induction w as [| x w IH]; intros a rest Hw Hp; [cbn; lia |].
  apply lacks_head in Hw as [Hx Hw].
  destruct a as [| d a]; cbn [append] in Hp.
  - rewrite (prefix_cons_neq _ _ _ _ Hx) in Hp. discriminate Hp.
  - cbn in Hp. destruct (ascii_dec x d); [| discriminate Hp].
    cbn [String.length]. apply le_n_S. now apply (IH a rest).
Qed.

(** Two different names closed by a brace do not match. *)
Lemma names_differ k : forall u rest,
  lacks "}"%char k = true -> lacks "}"%char u = true -> k <> u ->
  prefix (k ++ "}") (u ++ String "}"%char rest) = false.
Proof.
  induction k as [| y k IH]; intros u rest Hk Hu Hne.
  - destruct u as [| x u]; [contradiction |].
    apply lacks_head in Hu as [Hx _].
    cbn [append]. apply prefix_cons_neq. congruence.
  - apply lacks_head in Hk as [Hy Hk].
    destruct u as [| x u]; cbn [append].
    + now apply prefix_cons_neq.
    + apply lacks_head in Hu as [_ Hu].
      destruct (ascii_dec y x) as [-> | Hyx].
      * rewrite prefix_cons_eq. apply IH; congruence.
      * now apply prefix_cons_neq.
Qed.

(** Text without an opening brace is copied by the replacement of a
    placeholder. *)
Lemma replace_from_plain name new w : forall b,
  lacks "{"%char w = true ->
  replace_from (String "{"%char name) new 0 (w ++ b)
  = w ++ replace_from (String "{"%char name) new 0 b.
Proof.
  induction w as [| x w IH]; intros b Hw; [reflexivity |].
  apply lacks_head in Hw as [Hx Hw].
  cbn [append replace_from].
  rewrite prefix_cons_neq by congruence. now rewrite IH.
Qed.

Section Placeholder.

Variables (k u new : string).
Hypothesis k_brace_free : brace_free k = true.
Hypothesis u_brace_free : brace_free u = true.
Hypothesis k_not_u : k <> u.

Let O := String "{"%char (k ++ "}").
Let T := String "{"%char (u ++ "}").

(** The scan for [{k}] copies an occurrence of [{u}]. *)
Lemma replace_from_other_placeholder b :
  replace_from O new 0 (T ++ b) = T ++ replace_from O new 0 b.
Proof.
  unfold brace_free in *.
  apply andb_true_iff in k_brace_free as [Hk1 Hk2].
  apply andb_true_iff in u_brace_free as [Hu1 Hu2].
  unfold O, T. cbn [append replace_from].
  rewrite prefix_cons_eq, append_assoc.
  change ("}" ++ b) with (String "}"%char b).
  rewrite names_differ by assumption.
  f_equal.
  change (String "}"%char b) with ("}" ++ b). rewrite <- append_assoc.
  apply replace_from_plain.
  rewrite lacks_append, Hu1. reflexivity.
Qed.

(** An occurrence of [{k}] that starts before an occurrence of [{u}] ends
    before it, so the scan reaches the occurrence of [{u}] and copies it. *)
Lemma replace_from_keeps_placeholder b : forall a skip,
  skip <= String.length a ->
  exists copied,
    replace_from O new skip (a ++ T ++ b)
    = copied ++ T ++ replace_from O new 0 b.
Proof.
  induction a as [| c a IH]; intros skip Hskip.
  - cbn in Hskip. assert (skip = 0) as -> by lia.
    exists EmptyString. cbn [append]. apply replace_from_other_placeholder.
  - cbn [append String.length] in *. destruct skip as [| skip].
    + cbn [replace_from].
      destruct (prefix O (String c (a ++ T ++ b))) eqn:Hp.
      * assert (Hlen : String.length O - 1 <= String.length a).
        { unfold O in *. cbn [String.length]. rewrite Nat.sub_succ, Nat.sub_0_r.
          destruct (ascii_dec "{"%char c) as [<- | Hc];
            [rewrite prefix_cons_eq in Hp
            | rewrite (prefix_cons_neq _ _ _ _ Hc) in Hp; discriminate Hp].
          apply (prefix_ends_before "{"%char _ a (u ++ "}" ++ b)).
          - unfold brace_free in k_brace_free.
            apply andb_true_iff in k_brace_free as [Hk1 _].
            rewrite lacks_append, Hk1. reflexivity.
          - unfold T in Hp. cbn [append] in Hp. rewrite append_assoc in Hp.
            exact Hp. }
        destruct (IH _ Hlen) as (copied & ->).
        exists (new ++ copied). now rewrite append_assoc.
      * destruct (IH 0 (Nat.le_0_l _)) as (copied & ->).
        exists (String c copied). reflexivity.
    + cbn [replace_from]. apply IH. lia.
Qed.

End Placeholder.

(** A placeholder whose name is not the key stays in the text. *)
Lemma substitute_keeps_placeholder text k v u :
  brace_free k = true -> brace_free u = true -> k <> u ->
  contains ("{" ++ u ++ "}") text = true ->
  contains ("{" ++ u ++ "}") (substitute text (k, v)) = true.
Proof.
  intros Hk Hu Hne Hin.
  destruct (contains_split _ _ Hin) as (a & b & ->).
  unfold substitute. cbn [fst snd].
  rewrite replace_nonempty by (cbn; discriminate).
  destruct (replace_from_keeps_placeholder k u (str v) Hk Hu Hne b a 0
              (Nat.le_0_l _)) as (copied & Heq).
  cbn [append] in *. rewrite Heq. apply (contains_append (String "{"%char (u ++ "}"))).
Qed.

End Strings.

(** ** The result selector *)

Section Selector.

Local Open Scope nat_scope.

Lemma select_step_absent st : select_step st None = st.
Proof. reflexivity. Qed.

Lemma select_step_better best bs r :
  bs < score r -> select_step (best, bs) (Some r) = (Some r, score r).
Proof.
  intros H. unfold select_step. cbn [snd].
  destruct (Nat.ltb_spec bs (score r)); [reflexivity | lia].
Qed.

Lemma select_step_not_better best bs r :
  score r <= bs -> select_step (best, bs) (Some r) = (best, bs).
Proof.
  intros H. unfold select_step. cbn [snd].
  destruct (Nat.ltb_spec bs (score r)); [lia | reflexivity].
Qed.

(** Running the loop from any state: either nothing beat the starting
    score and the state is unchanged, or the state holds a response of the
    sequence, its score, and that score beats the start; in both cases the
    final score bounds every score of the sequence. *)
Lemma select_fold responses : forall best bs,
  let st := fold_left select_step responses (best, bs) in
  bs <= snd st /\
  (forall r, In (Some r) responses -> score r <= snd st) /\
  ((st = (best, bs)) \/
   (exists r, In (Some r) responses /\ st = (Some r, score r) /\ bs < score r)).
Proof.
  induction responses as [| x rest IH]; intros best bs; cbn zeta.
  - cbn. repeat split; [lia | intros r [] | now left].
  - cbn [fold_left]. destruct x as [r |].
    + destruct (Nat.lt_ge_cases bs (score r)) as [Hlt | Hge].
      * rewrite (select_step_better best bs r Hlt).
        destruct (IH (Some r) (score r)) as (Hle & Hall & Hcase).
        split; [lia |]. split.
        -- intros r' [Heq | Hin]; [injection Heq as <-; lia | auto].
        -- right. destruct Hcase as [-> | (r' & Hin & -> & Hlt')].
           ++ exists r. cbn. auto.
           ++ exists r'. cbn. repeat split; auto. lia.
      * rewrite (select_step_not_better best bs r Hge).
        destruct (IH best bs) as (Hle & Hall & Hcase).
        split; [lia |]. split.
        -- intros r' [Heq | Hin]; [injection Heq as <-; lia | auto].
        -- destruct Hcase as [-> | (r' & Hin & -> & Hlt')]; [now left |].
           right. exists r'. cbn. auto.
    + rewrite select_step_absent.
      destruct (IH best bs) as (Hle & Hall & Hcase).
      split; [lia |]. split.
      * intros r' [Heq | Hin]; [discriminate | auto].
      * destruct Hcase as [-> | (r' & Hin & -> & Hlt')]; [now left |].
        right. exists r'. cbn. auto.
Qed.

(** What [select_best_result] returns, in full. *)
Lemma select_best_result_cases responses :
  (select_best_result responses = None /\
   forall r, In (Some r) responses -> score r = 0) \/
  (exists best, select_best_result responses = Some best /\
                In (Some best) responses /\ 0 < score best /\
                forall r, In (Some r) responses -> score r <= score best).
Proof.
  unfold select_best_result.
  destruct (select_fold responses None 0) as (_ & Hall & [Heq | (r & Hin & Heq & Hlt)]).
  - left. rewrite Heq in *. cbn in *. split; [reflexivity |].
    intros r Hin. specialize (Hall r Hin). lia.
  - right. exists r. rewrite Heq in *. cbn in *. auto.
Qed.

Lemma select_all_zero responses :
  (forall r, In (Some r) responses -> score r = 0) ->
  select_best_result responses = None.
Proof.
  intros Hz.
  destruct (select_best_result_cases responses) as [[H _] | (b & _ & Hin & Hpos & _)];
    [exact H |].
  specialize (Hz b Hin). lia.
Qed.

Lemma select_some_positive responses best :
  select_best_result responses = Some best ->
  In (Some best) responses /\ 0 < score best /\
  forall r, In (Some r) responses -> score r <= score best.
Proof.
  intros Hsel.
  destruct (select_best_result_cases responses) as [[H _] | (b & Hb & Hin & Hpos & Hmax)].
  - congruence.
  - assert (b = best) by congruence. subst b. auto.
Qed.

(** The first response to reach the final maximum is the one returned. *)
Lemma select_first_maximum pre r post :
  0 < score r ->
  (forall x, In (Some x) pre -> score x < score r) ->
  (forall x, In (Some x) post -> score x <= score r) ->
  select_best_result (pre ++ Some r :: post) = Some r.
Proof.
  intros Hpos Hpre Hpost. unfold select_best_result.
  rewrite fold_left_app. cbn [fold_left].
  destruct (select_fold pre None 0) as (_ & _ & Hcase).
  assert (Hlt : snd (fold_left select_step pre (None, 0)) < score r).
  { destruct Hcase as [-> | (x & Hin & -> & _)]; cbn; auto. }
  destruct (fold_left select_step pre (None, 0)) as [b bs]. cbn [snd] in Hlt.
  rewrite (select_step_better b bs r Hlt).
  destruct (select_fold post (Some r) (score r)) as (_ & _ & [-> | (x & Hin & _ & Hx)]).
  - reflexivity.
  - specialize (Hpost x Hin). lia.
Qed.

End Selector.

(** ** The parallel executor *)

Section Executor.

Lemma execute_single_search_outcome client request :
  execute_single_search client request =
  (match client request with
   | Returned _ => []
   | Raised e => [Printed ("⚠️  Erreur de recherche: " ++ exn_str e)]
   end,
   Returned (response_of (client request))).
Proof.
  unfold execute_single_search. destruct (client request); reflexivity.
Qed.

Lemma submit_all_nth w requests : forall slot i,
  nth_error (submit_all w slot requests) i =
  option_map (execute_single_search (search w (slot + i)))
             (nth_error requests i).
Proof.
  induction requests as [| request rest IH]; intros slot i.
  - destruct i; reflexivity.
  - destruct i as [| i]; cbn.
    + now rewrite Nat.add_0_r.
    + rewrite IH. now rewrite Nat.add_succ_r.
Qed.

(** Gathering never raises; it yields one entry per completed future and
    prints nothing but the warnings of the failed requests. *)
Lemma collect_submit_all w requests order :
  exists out,
    collect (submit_all w 0 requests) order
    = (out, Returned (gathered w requests order))
    /\ Forall is_printed out.
Proof.
  induction order as [| i rest (out & IH & Hout)].
  - exists []. split; [reflexivity | constructor].
  - cbn [collect gathered flat_map]. rewrite submit_all_nth. cbn [Nat.add].
    destruct (nth_error requests i) as [request |]; cbn [option_map].
    + rewrite execute_single_search_outcome. unfold bind at 1.
      rewrite IH. cbn.
      eexists. split; [reflexivity |].
      apply Forall_app. split.
      * destruct (search w i request); repeat constructor.
      * rewrite app_nil_r. exact Hout.
    + exists out. split; [exact IH | exact Hout].
Qed.

Lemma gathered_In w requests order response :
  In (Some response) (gathered w requests order) ->
  exists slot request,
    nth_error requests slot = Some request
    /\ search w slot request = Returned response.
Proof.
  unfold gathered. rewrite in_flat_map. intros (i & _ & Hin).
  destruct (nth_error requests i) as [request |] eqn:Hreq; [| destruct Hin].
  destruct Hin as [Heq | []].
  exists i, request. split; [exact Hreq |].
  destruct (search w i request); cbn in Heq; congruence.
Qed.

Lemma In_gathered w requests order slot request response :
  In slot order ->
  nth_error requests slot = Some request ->
  search w slot request = Returned response ->
  In (Some response) (gathered w requests order).
Proof.
  intros Hin Hreq Hres. unfold gathered. rewrite in_flat_map.
  exists slot. split; [exact Hin |]. rewrite Hreq, Hres. now left.
Qed.

End Executor.

Section NoUsableResult.

Lemma search_and_select_none w prompt_key base_query system_prompt :
  load_client w = Returned tt ->
  split base_query <> [] ->
  (forall slot request r, search w slot request = Returned r -> score r = 0) ->
  exists warnings,
    search_and_select w prompt_key base_query system_prompt
    = ((warnings ++ [Printed "❌ Aucun résultat obtenu"])%list, Returned None)
    /\ Forall is_printed warnings.
Proof.
  intros Hload Htoken Hzero.
  unfold search_and_select. rewrite Hload.
  unfold create_optimized_queries.
  destruct (split base_query) as [| first others]; [contradiction |].
  unfold lift. cbn [bind app].
  match goal with
  | |- context [collect (submit_all w 0 ?reqs) (completion_order w)] =>
      destruct (collect_submit_all w reqs (completion_order w))
        as (warnings & Hcollect & Hprinted);
      assert (Hnone : select_best_result (gathered w reqs (completion_order w)) = None)
  end.
  { apply select_all_zero. intros r Hin.
    apply gathered_In in Hin. destruct Hin as (slot & request & _ & Hres).
    eauto. }
  exists warnings. split; [| exact Hprinted].
  rewrite Hcollect. cbn [bind app]. rewrite Hnone. cbn. reflexivity.
Qed.

(** When no request returns a response with a positive score, the run
    prints its header, the warnings of the failed requests and the
    no-result message, and returns [None]. *)
Lemma no_result_obtained w prompt_key config prompt_data prompt_text :
  locate_prompt config prompt_key = Some prompt_data ->
  prompt prompt_data = Some prompt_text ->
  load_client w = Returned tt ->
  split (replace_template_variables prompt_text (Some config)) <> [] ->
  (forall slot request r, search w slot request = Returned r -> score r = 0) ->
  exists warnings,
    execute_optimized_prompt w prompt_key config
    = ((Printed ("🎯 Variable: " ++ prompt_key)
          :: Printed (repeat_string "=" 60)
          :: warnings ++ [Printed "❌ Aucun résultat obtenu"])%list,
       Returned None)
    /\ Forall is_printed warnings.
Proof.
  intros Hloc Hprompt Hload Htoken Hzero.
  unfold execute_optimized_prompt. rewrite Hloc, Hprompt. cbn zeta.
  match goal with
  | |- context [search_and_select w prompt_key ?q ?sp] =>
      destruct (search_and_select_none w prompt_key q sp Hload Htoken Hzero)
        as (warnings & Hrun & Hprinted)
  end.
  exists warnings. split; [| exact Hprinted].
  rewrite Hrun. reflexivity.
Qed.

End NoUsableResult.

(** ** Claims about the result selector and the executor *)

(** C1, as stated, fails: a present response that scores 0 is the
    maximum of its sequence and is not returned. *)
Lemma C1_counterexample :
  ~ (forall responses,
        (exists r, In (Some r) responses) ->
        exists best,
          select_best_result responses = Some best
          /\ In (Some best) responses
          /\ forall r, In (Some r) responses -> score r <= score best).
Proof.
  intros H.
  destruct (H [Some Sample.empty_response]) as (best & Hsel & _).
  - exists Sample.empty_response. now left.
  - discriminate Hsel.
Qed.

(** C1 (amended).  The score of a present response is twice the number of
    result documents, plus 50 when the summary text is non-empty, plus ten
    times the number of citations of the summary's metadata (0 without
    summary or metadata); whenever some present response has a positive
    score, [select_best_result] returns a response of the sequence with the
    maximal score, and when every present response scores 0 it returns
    [None]; a response with 5 results and an empty summary text scores 10,
    one with 1 result, a summary and 2 citations scores 72, and the second
    is returned. *)
Theorem C1_score_and_maximum :
  (forall response,
      score response =
      2 * List.length (results response)
      + match summary response with
        | Some s => if nonempty (summary_text s) then 50 else 0
        | None => 0
        end
      + 10 * match summary response with
             | Some s =>
                 match summary_with_metadata s with
                 | Some m =>
                     match citations m with
                     | Some cs => List.length cs
                     | None => 0
                     end
                 | None => 0
                 end
             | None => 0
             end)
  /\ (forall responses,
         (exists r, In (Some r) responses /\ 0 < score r) ->
         exists best,
           select_best_result responses = Some best
           /\ In (Some best) responses
           /\ forall r, In (Some r) responses -> score r <= score best)
  /\ (forall responses,
         (forall r, In (Some r) responses -> score r = 0) ->
         select_best_result responses = None)
  /\ (score Sample.five_results = 10
      /\ score Sample.cited_summary = 72
      /\ select_best_result [Some Sample.five_results; Some Sample.cited_summary]
         = Some Sample.cited_summary
      /\ select_best_result [Some Sample.cited_summary; Some Sample.five_results]
         = Some Sample.cited_summary).
Proof.
  split; [| split; [| split]].
  - intros response. unfold score, result_count, has_summary, citation_count.
    destruct (summary response) as [s |]; lia.
  - intros responses (r & Hin & Hpos).
    destruct (select_best_result_cases responses)
      as [[_ Hzero] | (best & Hsel & Hbest & _ & Hmax)].
    + specialize (Hzero r Hin). lia.
    + exists best. auto.
  - exact select_all_zero.
  - repeat split; reflexivity.
Qed.

Lemma C1_witness :
  (exists r, In (Some r) [Some Sample.five_results; Some Sample.cited_summary]
             /\ 0 < score r)
  /\ exists best,
       select_best_result [Some Sample.five_results; Some Sample.cited_summary]
       = Some best
       /\ In (Some best) [Some Sample.five_results; Some Sample.cited_summary]
       /\ (forall r,
              In (Some r) [Some Sample.five_results; Some Sample.cited_summary] ->
              score r <= score best)
       /\ select_best_result
            [Some Sample.empty_response; None;
             Some Sample.blank_summary_response] = None.
Proof.
  assert (H : exists r,
             In (Some r) [Some Sample.five_results; Some Sample.cited_summary]
             /\ 0 < score r).
  { exists Sample.five_results. split; [now left | vm_compute; lia]. }
  split; [exact H |].
  destruct (proj1 (proj2 C1_score_and_maximum) _ H) as (best & H1 & H2 & H3).
  exists best.
  split; [exact H1 | split; [exact H2 | split; [exact H3 |]]].
  apply (proj1 (proj2 (proj2 C1_score_and_maximum))).
  intros r [E | [E | [E | []]]]; try discriminate E;
    injection E as <-; reflexivity.
Defined.

(** C2.  A response that scores 0 is never selected, so never in
    preference to a response with a result document; when every present
    response scores 0, which covers the case where all requests failed, no
    response is selected, and [execute_optimized_prompt] prints the
    no-result message last, displays no response and returns [None]. *)
Theorem C2_zero_score_never_selected :
  (forall responses zero other,
      In (Some zero) responses -> score zero = 0 ->
      In (Some other) responses -> 1 <= result_count other ->
      select_best_result responses <> Some zero
      /\ exists best,
           select_best_result responses = Some best /\ 0 < score best)
  /\ (forall responses,
         (forall r, In (Some r) responses -> score r = 0) ->
         select_best_result responses = None)
  /\ (forall w prompt_key config prompt_data prompt_text,
         locate_prompt config prompt_key = Some prompt_data ->
         prompt prompt_data = Some prompt_text ->
         load_client w = Returned tt ->
         split (replace_template_variables prompt_text (Some config)) <> [] ->
         (forall slot request r,
             search w slot request = Returned r -> score r = 0) ->
         exists warnings,
           execute_optimized_prompt w prompt_key config
           = ((Printed ("🎯 Variable: " ++ prompt_key)
                 :: Printed (repeat_string "=" 60)
                 :: warnings ++ [Printed "❌ Aucun résultat obtenu"])%list,
              Returned None)
           /\ Forall is_printed warnings).
Proof.
  split; [| split].
  - intros responses zero other Hzero Hscore Hother Hcount.
    destruct (select_best_result_cases responses)
      as [[_ Hall] | (best & Hsel & _ & Hpos & _)].
    + specialize (Hall other Hother). unfold score in Hall. lia.
    + split.
      * rewrite Hsel. intros Heq. injection Heq as ->. lia.
      * exists best. auto.
  - exact select_all_zero.
  - exact no_result_obtained.
Qed.

Lemma C2_witness :
  (exists warnings,
      execute_optimized_prompt Sample.world_failure_and_nothing_found
        "MARGE_BRUTE" Sample.config_marge
      = ((Printed "🎯 Variable: MARGE_BRUTE"
            :: Printed (repeat_string "=" 60)
            :: warnings ++ [Printed "❌ Aucun résultat obtenu"])%list,
         Returned None)
      /\ Forall is_printed warnings)
  /\ select_best_result
       [Some Sample.empty_response; None; Some Sample.five_results]
     <> Some Sample.empty_response.
Proof.
  destruct C2_zero_score_never_selected as (Hnever & _ & Hrun).
  split.
  - apply (Hrun Sample.world_failure_and_nothing_found "MARGE_BRUTE"
             Sample.config_marge
             {| prompt := Some "Quelle est la marge de {company} ?";
                instructions := None; pd_other_keys := false |}
             "Quelle est la marge de {company} ?").
    + reflexivity.
    + reflexivity.
    + reflexivity.
    + vm_compute. discriminate.
    + intros slot request r. destruct slot as [| slot]; cbn.
      * discriminate.
      * intros Heq. injection Heq as <-. reflexivity.
  - apply (Hnever _ Sample.empty_response Sample.five_results).
    + now left.
    + reflexivity.
    + right. right. now left.
    + vm_compute. lia.
Defined.

(** C3, as stated, fails: the sole present response of a singleton is not
    returned when it scores 0. *)
Lemma C3_counterexample :
  ~ (forall r, select_best_result [Some r] = Some r).
Proof.
  intros H. specialize (H Sample.empty_response). discriminate H.
Qed.

(** C3 (amended).  [select_best_result] returns [None] on a sequence whose
    entries are all absent, the empty sequence included; on a sequence with
    exactly one present response it returns that response when its score
    is positive. *)
Theorem C3_absent_and_sole_response :
  select_best_result [] = None
  /\ (forall responses,
         (forall x, In x responses -> x = None) ->
         select_best_result responses = None)
  /\ (forall pre r post,
         (forall x, In x pre -> x = None) ->
         (forall x, In x post -> x = None) ->
         0 < score r ->
         select_best_result (pre ++ Some r :: post) = Some r)
  /\ (forall r, 0 < score r -> select_best_result [Some r] = Some r).
Proof.
  split; [reflexivity |]. split; [| split].
  - intros responses Habsent. apply select_all_zero.
    intros r Hin. specialize (Habsent _ Hin). discriminate.
  - intros pre r post Hpre Hpost Hpos. apply select_first_maximum.
    + exact Hpos.
    + intros x Hin. specialize (Hpre _ Hin). discriminate.
    + intros x Hin. specialize (Hpost _ Hin). discriminate.
  - intros r Hpos. apply (select_first_maximum [] r []); [exact Hpos | |];
      intros x [].
Qed.

Lemma C3_witness :
  select_best_result [None; None; None] = None
  /\ select_best_result [None; Some Sample.cited_summary; None]
     = Some Sample.cited_summary
  /\ select_best_result [Some Sample.five_results] = Some Sample.five_results.
Proof.
  destruct C3_absent_and_sole_response as (_ & Habsent & Hsole & Hsingle).
  split; [| split].
  - apply Habsent. intros x [<- | [<- | [<- | []]]]; reflexivity.
  - apply (Hsole [None] Sample.cited_summary [None]).
    + intros x [<- | []]. reflexivity.
    + intros x [<- | []]. reflexivity.
    + vm_compute. lia.
  - apply Hsingle. vm_compute. lia.
Defined.

(** C4, as stated, fails: of two present responses that both score 0 the
    first is not returned. *)
Lemma C4_counterexample :
  ~ (forall first second,
        score first = score second ->
        select_best_result [Some first; Some second] = Some first).
Proof.
  intros H.
  specialize (H Sample.empty_response Sample.blank_summary_response eq_refl).
  discriminate H.
Qed.

(** C4 (amended).  When the maximal score is positive, the response
    returned is the first one of the sequence that attains it: a later
    response whose score only equals the current best score leaves the
    loop state as it is. *)
Theorem C4_first_seen_wins :
  (forall pre r post,
      0 < score r ->
      (forall x, In (Some x) pre -> score x < score r) ->
      (forall x, In (Some x) post -> score x <= score r) ->
      select_best_result (pre ++ Some r :: post) = Some r)
  /\ (forall first second,
         0 < score first -> score second = score first ->
         select_best_result [Some first; Some second] = Some first)
  /\ (forall best later,
         score later = score best ->
         select_step (Some best, score best) (Some later)
         = (Some best, score best)).
Proof.
  split; [exact select_first_maximum |]. split.
  - intros first second Hpos Heq.
    apply (select_first_maximum [] first [Some second]).
    + exact Hpos.
    + intros x [].
    + intros x [Hx | []]. injection Hx as <-. lia.
  - intros best later Heq. apply select_step_not_better. lia.
Qed.

Lemma C4_witness :
  select_best_result
    [Some Sample.five_results;
     Some {| results := repeat Sample.doc 5; summary := None |}]
  = Some Sample.five_results.
Proof.
  apply (proj1 (proj2 C4_first_seen_wins)).
  - vm_compute. lia.
  - reflexivity.
Defined.

(** C9, as stated, fails: one request fails, the two siblings succeed with
    responses that hold no result and no summary, and nothing is
    selected. *)
Lemma C9_counterexample :
  ~ (forall w requests slot request r,
        Permutation (completion_order w) (seq 0 (List.length requests)) ->
        nth_error requests slot = Some request ->
        search w slot request = Returned r ->
        select_best_result (gathered w requests (completion_order w)) <> None).
Proof.
  intros H.
  apply (H Sample.world_failure_and_nothing_found Sample.three_requests 1
           (Sample.request_for "q2") Sample.empty_response).
  - apply Permutation_refl.
  - reflexivity.
  - reflexivity.
  - reflexivity.
Qed.

(** C9 (amended).  [execute_single_search] turns an exception of the
    search into a warning and an absent outcome and hands a response on
    unchanged; gathering the submitted requests never raises, and whenever
    a request returned a response with a positive score, whatever happened
    to the other requests, that response is among the gathered ones and
    [select_best_result] returns a response scoring at least as much. *)
Theorem C9_failure_isolation :
  (forall client request e,
      client request = Raised e ->
      execute_single_search client request
      = ([Printed ("⚠️  Erreur de recherche: " ++ exn_str e)], Returned None))
  /\ (forall client request r,
         client request = Returned r ->
         execute_single_search client request = ([], Returned (Some r)))
  /\ (forall w requests slot request r,
         Permutation (completion_order w) (seq 0 (List.length requests)) ->
         nth_error requests slot = Some request ->
         search w slot request = Returned r ->
         0 < score r ->
         exists out best,
           collect (submit_all w 0 requests) (completion_order w)
           = (out, Returned (gathered w requests (completion_order w)))
           /\ In (Some r) (gathered w requests (completion_order w))
           /\ select_best_result (gathered w requests (completion_order w))
              = Some best
           /\ score r <= score best).
Proof.
  split; [| split].
  - intros client request e H. rewrite execute_single_search_outcome, H.
    reflexivity.
  - intros client request r H. rewrite execute_single_search_outcome, H.
    reflexivity.
  - intros w requests slot request r Hperm Hreq Hres Hpos.
    destruct (collect_submit_all w requests (completion_order w))
      as (out & Hcollect & _).
    assert (Hin : In (Some r) (gathered w requests (completion_order w))).
    { apply (In_gathered w requests _ slot request r); [| exact Hreq | exact Hres].
      apply (Permutation_in slot (Permutation_sym Hperm)).
      apply in_seq. split; [lia |]. cbn.
      apply nth_error_Some. congruence. }
    destruct (select_best_result_cases (gathered w requests (completion_order w)))
      as [[_ Hzero] | (best & Hsel & _ & _ & Hmax)].
    + specialize (Hzero r Hin). lia.
    + exists out, best. auto.
Qed.

Lemma C9_witness :
  exists out best,
    collect (submit_all Sample.world_one_failure 0 Sample.three_requests)
            (completion_order Sample.world_one_failure)
    = (out,
       Returned (gathered Sample.world_one_failure Sample.three_requests
                   (completion_order Sample.world_one_failure)))
    /\ In (Some Sample.five_results)
          (gathered Sample.world_one_failure Sample.three_requests
             (completion_order Sample.world_one_failure))
    /\ select_best_result
         (gathered Sample.world_one_failure Sample.three_requests
            (completion_order Sample.world_one_failure))
       = Some best
    /\ score Sample.five_results <= score best.
Proof.
  apply (proj2 (proj2 C9_failure_isolation) Sample.world_one_failure
           Sample.three_requests 1 (Sample.request_for "q2")
           Sample.five_results).
  - cbn. apply Permutation_sym.
    apply (perm_trans (l' := [0; 2; 1])).
    + apply perm_skip. apply perm_swap.
    + apply perm_swap.
  - reflexivity.
  - reflexivity.
  - vm_compute. lia.
Defined.

(** ** Claims about the template resolver and the query variants *)

Section TemplateResolver.

Lemma resolve_without_placeholder template_dict : forall text,
  (forall key value,
      In (key, value) template_dict -> find ("{" ++ key ++ "}") text = None) ->
  fold_left substitute template_dict text = text.
Proof.
  induction template_dict as [| [key value] rest IH]; intros text H;
    [reflexivity |].
  cbn [fold_left]. unfold substitute at 2. cbn [fst snd].
  rewrite replace_no_occurrence.
  - apply IH. intros k v Hin. apply (H k v). now right.
  - cbn. discriminate.
  - apply (H key value). now left.
Qed.

Lemma resolve_keeps_placeholder name template_dict : forall text,
  brace_free name = true ->
  (forall key value,
      In (key, value) template_dict -> brace_free key = true /\ key <> name) ->
  contains ("{" ++ name ++ "}") text = true ->
  contains ("{" ++ name ++ "}") (fold_left substitute template_dict text) = true.
Proof.
  induction template_dict as [| [key value] rest IH]; intros text Hname H Hin;
    [exact Hin |].
  cbn [fold_left]. apply IH.
  - exact Hname.
  - intros k v Hkv. apply (H k v). now right.
  - destruct (H key value (or_introl eq_refl)) as [Hkey Hne].
    now apply substitute_keeps_placeholder.
Qed.

End TemplateResolver.

(** C7, as stated, fails: a key may hold braces, and its placeholder then
    covers the placeholder of a name that is no key.  With the one key
    [a}{b], the text [{a}{b}] becomes [X]: the placeholder of [a], which
    is not in the dictionary, is not left as it was. *)
Lemma C7_counterexample :
  ~ (forall text config template_dict name,
        template_dictionary config = Some template_dict ->
        (forall key value, In (key, value) template_dict -> key <> name) ->
        contains ("{" ++ name ++ "}") text = true ->
        contains ("{" ++ name ++ "}")
                 (replace_template_variables text (Some config)) = true).
Proof.
  intros H.
  specialize (H "{a}{b}"
                {| prompts_config := None;
                   prompts_config_final := None;
                   template_dictionary := Some [ ("a}{b", VStr "X") ];
                   default_settings := None |}
                [ ("a}{b", VStr "X") ] "a" eq_refl).
  assert (Hkeys : forall key value,
             In (key, value) [ ("a}{b", VStr "X") ] -> key <> "a").
  { intros key value [E | []]. injection E as <- _. discriminate. }
  specialize (H Hkeys eq_refl). vm_compute in H. discriminate H.
Qed.

(** C7 (amended).  Without configuration or without template dictionary
    the text is returned unchanged.  With a dictionary the keys are taken
    in insertion order, each step replacing by [str.replace] the
    placeholder of the key with the string form of its value, which
    replaces every occurrence of the placeholder the scan meets.  A text
    in which no placeholder of the dictionary occurs is returned as it is,
    and a placeholder whose name is not a key is still in the result,
    provided that this name and the keys hold no brace. *)
Theorem C7_template_resolution :
  (forall text, replace_template_variables text None = text)
  /\ (forall text config,
         template_dictionary config = None ->
         replace_template_variables text (Some config) = text)
  /\ (forall text config template_dict,
         template_dictionary config = Some template_dict ->
         replace_template_variables text (Some config)
         = fold_left
             (fun result kv =>
                replace result ("{" ++ fst kv ++ "}") (str (snd kv)))
             template_dict text)
  /\ (forall key value parts last,
         leftmost_occurrences ("{" ++ key ++ "}") parts last ->
         substitute (join_with ("{" ++ key ++ "}") parts last) (key, value)
         = join_with (str value) parts last)
  /\ (forall text config template_dict,
         template_dictionary config = Some template_dict ->
         (forall key value,
             In (key, value) template_dict ->
             find ("{" ++ key ++ "}") text = None) ->
         replace_template_variables text (Some config) = text)
  /\ (forall text config template_dict name,
         template_dictionary config = Some template_dict ->
         brace_free name = true ->
         (forall key value,
             In (key, value) template_dict ->
             brace_free key = true /\ key <> name) ->
         contains ("{" ++ name ++ "}") text = true ->
         contains ("{" ++ name ++ "}")
                  (replace_template_variables text (Some config)) = true).
Proof.
  repeat split.
  - intros text config H. unfold replace_template_variables. now rewrite H.
  - intros text config template_dict H. unfold replace_template_variables.
    now rewrite H.
  - intros key value parts last H. unfold substitute. cbn [fst snd].
    apply replace_join; [cbn; discriminate | exact H].
  - intros text config template_dict Hd H. unfold replace_template_variables.
    rewrite Hd. now apply resolve_without_placeholder.
  - intros text config template_dict name Hd Hname H Hin.
    unfold replace_template_variables. rewrite Hd.
    now apply resolve_keeps_placeholder.
Qed.

Lemma C7_witness :
  substitute "{company} en {year}: {company}" ("company", VStr "Reno Energy")
  = "Reno Energy en {year}: Reno Energy"
  /\ replace_template_variables "Bilan {annee}" (Some Sample.config_company_year)
     = "Bilan {annee}"
  /\ contains "{annee}"
       (replace_template_variables "{company}: bilan {annee}, {year}"
          (Some Sample.config_company_year)) = true
  /\ replace_template_variables "{company}" (Some Sample.config_blank)
     = "{company}".
Proof.
  destruct C7_template_resolution
    as (_ & Habsent & _ & Hevery & Hverbatim & Hkept).
  split; [| split; [| split]].
  - apply (Hevery "company" (VStr "Reno Energy")
             [EmptyString; " en {year}: "] EmptyString).
    cbn. repeat split.
  - apply (Hverbatim _ _ [("company", VStr "Reno Energy"); ("year", VInt 2024)]).
    + reflexivity.
    + intros key value [H | [H | []]]; injection H as <- <-; reflexivity.
  - apply (Hkept _ _ [("company", VStr "Reno Energy"); ("year", VInt 2024)]
             "annee").
    + reflexivity.
    + reflexivity.
    + intros key value [H | [H | []]]; injection H as <- <-;
        (split; [reflexivity | discriminate]).
    + reflexivity.
  - apply Habsent. reflexivity.
Defined.

(** C5, as stated, fails: with the table of MARGE_BRUTE, both occurrences
    of the term in the query are replaced, not the first one alone. *)
Lemma C5_counterexample :
  ~ (forall prompt_type pairs term synonyms query,
        Dict.lookup synonym_mappings prompt_type = Some pairs ->
        In (term, synonyms) pairs ->
        contains (lower term) (lower query) = true ->
        enrich_step query (term, synonyms)
        = SpecWords.replace_first_ci query term synonyms).
Proof.
  intros H.
  specialize (H "MARGE_BRUTE" _ "marge"
                "marge brute profitabilité rentabilité margin profit"
                "marge nette et marge brute" eq_refl (or_introl eq_refl) eq_refl).
  vm_compute in H. discriminate H.
Qed.

(** C5 (amended).  The enriched variant runs through the pairs of the
    category in table order; for a pair whose term occurs in the query
    built so far, compared without regard to case, every occurrence of the
    term as the table spells it, as a scan from the left meets them, is
    replaced with the synonym phrase; when the term does not occur under
    that comparison the query is left as it is. *)
Theorem C5_every_occurrence_replaced :
  (forall base_query prompt_type pairs,
      Dict.lookup synonym_mappings prompt_type = Some pairs ->
      enriched_variant base_query prompt_type
      = create_enhanced_query_with_context
          (fold_left enrich_step pairs base_query) prompt_type)
  /\ (forall term synonyms parts last,
         term <> EmptyString ->
         contains (lower term) (lower (join_with term parts last)) = true ->
         leftmost_occurrences term parts last ->
         enrich_step (join_with term parts last) (term, synonyms)
         = join_with synonyms parts last)
  /\ (forall query term synonyms,
         contains (lower term) (lower query) = false ->
         enrich_step query (term, synonyms) = query).
Proof.
  split; [| split].
  - intros base_query prompt_type pairs H. unfold enriched_variant.
    now rewrite H.
  - intros term synonyms parts last Hterm Hci Hocc. unfold enrich_step.
    rewrite Hci. now apply replace_join.
  - intros query term synonyms Hci. unfold enrich_step. now rewrite Hci.
Qed.

Lemma C5_witness :
  enrich_step "marge nette et marge brute"
    ("marge", "marge brute profitabilité rentabilité margin profit")
  = "marge brute profitabilité rentabilité margin profit nette et "
    ++ "marge brute profitabilité rentabilité margin profit brute"
  /\ enrich_step "Quels sont les dirigeants ?" ("marge", "marge brute")
     = "Quels sont les dirigeants ?".
Proof.
  destruct C5_every_occurrence_replaced as (_ & Hevery & Hnone).
  split.
  - refine (Hevery "marge"
              "marge brute profitabilité rentabilité margin profit"
              [EmptyString; " nette et "] " brute" _ _ _).
    + discriminate.
    + reflexivity.
    + cbn. repeat split.
  - apply Hnone. reflexivity.
Defined.

Section QueryVariants.

(** A base query with a token gives three variants; the second and the
    third of an unrecognized category use the generic defaults. *)
Lemma create_optimized_queries_three base_query prompt_type first others :
  split base_query = first :: others ->
  create_optimized_queries base_query prompt_type
  = Returned [ enriched_variant base_query prompt_type;
               technical_variant base_query prompt_type;
               Dict.get short_terms prompt_type
                 ("Reno Energy " ++ first ++ " 2024") ].
Proof. intros H. unfold create_optimized_queries. now rewrite H. Qed.

Lemma create_optimized_queries_length base_query prompt_type queries :
  create_optimized_queries base_query prompt_type = Returned queries ->
  List.length queries = 3.
Proof.
  unfold create_optimized_queries.
  destruct (split base_query); intros H; [discriminate H |].
  injection H as <-. reflexivity.
Qed.

Lemma create_optimized_queries_blank base_query prompt_type :
  split base_query = [] ->
  create_optimized_queries base_query prompt_type
  = Raised (IndexError "list index out of range").
Proof. intros H. unfold create_optimized_queries. now rewrite H. Qed.

Lemma unrecognized_category_defaults base_query prompt_type first others :
  Dict.lookup technical_terms prompt_type = None ->
  Dict.lookup short_terms prompt_type = None ->
  split base_query = first :: others ->
  exists enriched,
    create_optimized_queries base_query prompt_type
    = Returned [ enriched;
                 base_query ++ " Reno Energy 2024";
                 "Reno Energy " ++ first ++ " 2024" ].
Proof.
  intros Ht Hs H. rewrite (create_optimized_queries_three _ _ _ _ H).
  unfold technical_variant, Dict.get. rewrite Ht, Hs. eexists. reflexivity.
Qed.

End QueryVariants.

(** C6: the code does not return three strings for every input.  The
    default of the short variant is computed before the table is
    consulted, so a base query without a token raises IndexError, for a
    category of the tables as for an unrecognized one; inside
    [execute_optimized_prompt] the exception ends the run with an error
    message and no search. *)
Theorem C6_blank_query_raises :
  create_optimized_queries EmptyString "CHIFFRE_AFFAIRES"
  = Raised (IndexError "list index out of range")
  /\ create_optimized_queries "   " "AUTRE"
     = Raised (IndexError "list index out of range")
  /\ execute_optimized_prompt Sample.world_one_failure "CHIFFRE_AFFAIRES"
       Sample.config_blank
     = ([ Printed "🎯 Variable: CHIFFRE_AFFAIRES";
          Printed (repeat_string "=" 60);
          Printed "❌ Erreur: list index out of range" ],
        Returned None).
Proof. repeat split; reflexivity. Qed.

(** ** Document names *)

Section DocumentNames.

Lemma nonempty_true s : nonempty s = true <-> s <> EmptyString.
Proof. destruct s; cbn; split; congruence. Qed.

Lemma nonempty_false s : nonempty s = false <-> s = EmptyString.
Proof. destruct s; cbn; split; congruence. Qed.

(** Decoding never empties a name. *)
Lemma unquote_nonempty s : s <> EmptyString -> unquote s <> EmptyString.
Proof.
  destruct s as [| c s]; [contradiction |]. intros _. cbn [unquote].
  destruct (Ascii.eqb c "%"%char); [| discriminate].
  destruct s as [| h [| l rest]]; try discriminate.
  destruct (hex_digit h), (hex_digit l); discriminate.
Qed.

Lemma extract_document_name_segment uri :
  uri <> EmptyString -> last_segment uri <> EmptyString ->
  extract_document_name uri = unquote (last_segment uri).
Proof.
  intros Hu Hs. unfold extract_document_name.
  apply nonempty_true in Hu, Hs. now rewrite Hu, Hs.
Qed.

Lemma extract_document_name_folder uri :
  uri <> EmptyString -> last_segment uri = EmptyString ->
  extract_document_name uri = "Document sans nom".
Proof.
  intros Hu Hs. unfold extract_document_name.
  apply nonempty_true in Hu. rewrite Hu, Hs. reflexivity.
Qed.

End DocumentNames.

(** C8, as stated, fails: for a URI that ends with a slash the name is
    none of the decoded final segment, the title, the name field and the
    unknown-document marker. *)
Lemma C8_counterexample :
  ~ (forall doc sd,
        struct_data doc = Some sd -> sd <> [] ->
        Simple.mapping_doc_name doc
        = unquote (last_segment (Dict.get sd "uri" EmptyString))
        \/ Simple.mapping_doc_name doc = Dict.get sd "title" EmptyString
        \/ Simple.mapping_doc_name doc = Dict.get sd "name" EmptyString
        \/ Simple.mapping_doc_name doc = "Document inconnu").
Proof.
  intros H.
  destruct (H Sample.doc_folder _ eq_refl) as [E | [E | [E | E]]];
    try discriminate; vm_compute in E; discriminate E.
Qed.

(** C8 (amended).  With structured data at hand, a non-empty URI field
    gives its final path segment, percent-decoded, and the fixed name
    "Document sans nom" when the URI ends with a slash; when the URI is
    absent or empty, or its decoded final segment is the unknown-document
    marker itself, the title field is taken, else the name field, else the
    marker "Document inconnu"; without structured data the name is the
    marker.  "gs://bucket/folder/Report%20Final.pdf" gives
    "Report Final.pdf" and an absent URI with title "Q3 Summary" gives
    "Q3 Summary". *)
Theorem C8_document_name_resolution :
  (forall doc sd,
      struct_data doc = Some sd -> sd <> [] ->
      let uri := Dict.get sd "uri" EmptyString in
      let title := Dict.get sd "title" EmptyString in
      let name := Dict.get sd "name" EmptyString in
      (uri <> EmptyString -> last_segment uri <> EmptyString ->
       unquote (last_segment uri) <> "Document inconnu" ->
       Simple.mapping_doc_name doc = unquote (last_segment uri))
      /\ (uri <> EmptyString -> last_segment uri = EmptyString ->
          Simple.mapping_doc_name doc = "Document sans nom")
      /\ (uri = EmptyString
          \/ unquote (last_segment uri) = "Document inconnu" ->
          (title <> EmptyString -> Simple.mapping_doc_name doc = title)
          /\ (title = EmptyString -> name <> EmptyString ->
              Simple.mapping_doc_name doc = name)
          /\ (title = EmptyString -> name = EmptyString ->
              Simple.mapping_doc_name doc = "Document inconnu")))
  /\ (forall doc,
         struct_data doc = None \/ struct_data doc = Some [] ->
         Simple.mapping_doc_name doc = "Document inconnu")
  /\ (Simple.mapping_doc_name Sample.doc_report = "Report Final.pdf"
      /\ Simple.mapping_doc_name Sample.doc_titled = "Q3 Summary"
      /\ Simple.mapping_doc_name Sample.doc_named = "balance-sheet"
      /\ Simple.mapping_doc_name Sample.doc_bare = "Document inconnu").
Proof.
  split; [| split].
  - intros doc sd Hsd Hne uri title name.
    assert (Hunfold :
      Simple.mapping_doc_name doc =
      let doc_name :=
        if nonempty uri then extract_document_name uri
        else "Document inconnu" in
      if String.eqb doc_name "Document inconnu" || negb (nonempty doc_name)
      then if nonempty title then title
           else if nonempty name then name else doc_name
      else doc_name).
    { unfold Simple.mapping_doc_name. rewrite Hsd.
      destruct sd; [contradiction | reflexivity]. }
    rewrite Hunfold. clear Hunfold. cbn zeta.
    split; [| split].
    + intros Hu Hs Hm.
      rewrite (extract_document_name_segment _ Hu Hs).
      apply nonempty_true in Hu. rewrite Hu.
      apply String.eqb_neq in Hm. rewrite Hm.
      pose proof (unquote_nonempty _ Hs) as Hq.
      apply nonempty_true in Hq. rewrite Hq. reflexivity.
    + intros Hu Hs.
      rewrite (extract_document_name_folder _ Hu Hs).
      apply nonempty_true in Hu. rewrite Hu. reflexivity.
    + intros Hcase.
      assert (Hmarker :
        (if nonempty uri then extract_document_name uri
         else "Document inconnu") = "Document inconnu").
      { destruct Hcase as [-> | Hm]; [reflexivity |].
        destruct (nonempty uri) eqn:Hu; [| reflexivity].
        apply nonempty_true in Hu.
        destruct (string_dec (last_segment uri) EmptyString) as [Hs | Hs].
        - rewrite Hs in Hm. discriminate Hm.
        - now rewrite (extract_document_name_segment _ Hu Hs). }
      rewrite Hmarker.
      change ("Document inconnu" =? "Document inconnu")%string with true.
      cbn [orb].
      split; [| split].
      * intros Ht. apply nonempty_true in Ht. now rewrite Ht.
      * intros Ht Hn. apply nonempty_false in Ht. apply nonempty_true in Hn.
        now rewrite Ht, Hn.
      * intros Ht Hn. apply nonempty_false in Ht, Hn. now rewrite Ht, Hn.
  - intros doc [H | H]; unfold Simple.mapping_doc_name; now rewrite H.
  - repeat split; reflexivity.
Qed.

Lemma C8_witness :
  Simple.mapping_doc_name Sample.doc_report
  = unquote (last_segment "gs://bucket/folder/Report%20Final.pdf")
  /\ Simple.mapping_doc_name Sample.doc_folder = "Document sans nom"
  /\ Simple.mapping_doc_name Sample.doc_titled = "Q3 Summary"
  /\ Simple.mapping_doc_name
       {| id := None; struct_data := None |} = "Document inconnu".
Proof.
  destruct C8_document_name_resolution as (Hdata & Hnone & _).
  split; [| split; [| split]].
  - refine (proj1 (Hdata Sample.doc_report _ eq_refl _) _ _ _);
      vm_compute; discriminate.
  - refine (proj1 (proj2 (Hdata Sample.doc_folder _ eq_refl _)) _ _);
      vm_compute; (discriminate || reflexivity).
  - refine (proj1 (proj2 (proj2 (Hdata Sample.doc_titled _ eq_refl _)) _) _).
    + discriminate.
    + left. reflexivity.
    + vm_compute. discriminate.
  - apply Hnone. left. reflexivity.
Defined.

(** ** The interactive loops *)

Section Loops.

Variable execute : string -> list Out * Signal.
Variable config : Config.
Variable available_vars : list string.

Lemma selects_true choice :
  selects available_vars choice = true <->
  is_quit choice = false /\ is_list choice = false
  /\ existsb (String.eqb choice) available_vars = true.
Proof.
  unfold selects. rewrite !andb_true_iff, !negb_true_iff. tauto.
Qed.

(** The simple script leaves the loop when an execution returns. *)
Lemma simple_iteration_completed line out :
  selects available_vars (choice_of line) = true ->
  execute (choice_of line) = (out, Completed) ->
  Simple.iteration execute config available_vars (Entered line)
  = (Printed EmptyString :: out, Break).
Proof.
  intros Hsel Hrun. apply selects_true in Hsel as (Hq & Hl & Hk).
  unfold Simple.iteration. cbn zeta. now rewrite Hq, Hl, Hk, Hrun.
Qed.

(** The advanced script goes on when an execution returns. *)
Lemma advanced_iteration_completed line out :
  selects available_vars (choice_of line) = true ->
  execute (choice_of line) = (out, Completed) ->
  Advanced.iteration execute config available_vars (Entered line)
  = (Printed EmptyString :: out, Continue).
Proof.
  intros Hsel Hrun. apply selects_true in Hsel as (Hq & Hl & Hk).
  unfold Advanced.iteration. cbn zeta. now rewrite Hq, Hl, Hk, Hrun.
Qed.

(** Which entries let the simple loop go on. *)
Lemma simple_iteration_continue line :
  snd (Simple.iteration execute config available_vars (Entered line))
  = Continue <->
  is_quit (choice_of line) = false
  /\ (is_list (choice_of line) = true
      \/ existsb (String.eqb (choice_of line)) available_vars = false
      \/ exists e, snd (execute (choice_of line)) = Failed e).
Proof.
  unfold Simple.iteration. cbn zeta.
  destruct (is_quit (choice_of line)); cbn [snd].
  - split; [discriminate | intros [H _]; discriminate H].
  - destruct (is_list (choice_of line)); cbn [snd].
    + split; auto.
    + destruct (existsb (String.eqb (choice_of line)) available_vars);
        cbn [snd].
      * destruct (execute (choice_of line)) as [out [| e |]]; cbn [snd].
        -- split; [discriminate |].
           intros [_ [H | [H | (e & H)]]]; discriminate H.
        -- split; [| reflexivity]. intros _. split; [reflexivity |].
           right. right. now exists e.
        -- split; [discriminate |].
           intros [_ [H | [H | (e & H)]]]; discriminate H.
      * split; auto.
Qed.

(** Which events make the advanced loop stop. *)
Lemma advanced_iteration_break ev :
  snd (Advanced.iteration execute config available_vars ev) = Break <->
  ev = CtrlC
  \/ exists line,
       ev = Entered line
       /\ (is_quit (choice_of line) = true
           \/ (selects available_vars (choice_of line) = true
               /\ snd (execute (choice_of line)) = Interrupted)).
Proof.
  destruct ev as [line | | e];
    [| cbn; split; auto
     | cbn; split; [discriminate | intros [H | (l & H & _)]; discriminate H]].
  unfold Advanced.iteration, selects. cbn zeta.
  destruct (is_quit (choice_of line)) eqn:Hq,
           (is_list (choice_of line)) eqn:Hl,
           (existsb (String.eqb (choice_of line)) available_vars) eqn:Hk,
           (execute (choice_of line)) as [out [| e |]] eqn:Hrun;
    cbn [snd negb andb];
    (split;
     [ intros Hb;
       first [ discriminate Hb
             | right; exists line; split;
               [ reflexivity
               | rewrite ?Hq, ?Hl, ?Hk, ?Hrun; cbn [snd negb andb]; auto ] ]
     | intros [H | (l & H & Hc)]; [discriminate H |];
       injection H as <-; rewrite ?Hq, ?Hl, ?Hk, ?Hrun in Hc; cbn in Hc;
       destruct Hc as [Hc | [Hc1 Hc2]]; try discriminate; reflexivity ]).
Qed.

Lemma advanced_loop_cons ev rest :
  Advanced.main_loop execute config available_vars (ev :: rest)
  = match snd (Advanced.iteration execute config available_vars ev) with
    | Break =>
        (Prompted input_prompt
           :: fst (Advanced.iteration execute config available_vars ev),
         Terminated rest)
    | Continue =>
        ((Prompted input_prompt
            :: fst (Advanced.iteration execute config available_vars ev)
            ++ fst (Advanced.main_loop execute config available_vars rest))%list,
         snd (Advanced.main_loop execute config available_vars rest))
    end.
Proof.
  cbn [Advanced.main_loop].
  destruct (Advanced.iteration execute config available_vars ev) as [out []];
    cbn [fst snd]; [| reflexivity].
  destruct (Advanced.main_loop execute config available_vars rest).
  reflexivity.
Qed.

Lemma is_quit_iff choice :
  is_quit choice = true <-> In (lower choice) ["quit"; "exit"; "q"].
Proof.
  unfold is_quit. rewrite existsb_exists. split.
  - intros (x & Hx & He). apply String.eqb_eq in He. now subst.
  - intros H. exists (lower choice). split; [exact H | apply String.eqb_refl].
Qed.

Lemma is_list_iff choice :
  is_list choice = true <-> lower choice = "list".
Proof. unfold is_list. apply String.eqb_eq. Qed.

Lemma available_iff choice :
  existsb (String.eqb choice) available_vars = true <->
  In choice available_vars.
Proof.
  rewrite existsb_exists. split.
  - intros (x & Hx & He). apply String.eqb_eq in He. now subst.
  - intros H. exists choice. split; [exact H | apply String.eqb_refl].
Qed.

(** The turns on which the advanced loop breaks. *)
Lemma advanced_iteration_stops ev :
  snd (Advanced.iteration execute config available_vars ev) = Break <->
  stops_advanced_loop execute available_vars ev.
Proof.
  rewrite advanced_iteration_break.
  destruct ev as [line | | e]; cbn [stops_advanced_loop].
  - split.
    + intros [H | (l & H & Hc)]; [discriminate H |].
      injection H as <-. destruct Hc as [Hq | [Hsel Hi]].
      * left. now apply is_quit_iff.
      * right. apply selects_true in Hsel as (_ & Hl & Hk).
        repeat split; [| now apply available_iff | exact Hi].
        intros Hlist. apply is_list_iff in Hlist. congruence.
    + intros [Hq | (Hl & Hk & Hi)]; right; exists line;
        (split; [reflexivity |]).
      * left. now apply is_quit_iff.
      * destruct (is_quit (choice_of line)) eqn:Hq; [now left |].
        right. split; [| exact Hi]. apply selects_true.
        repeat split; [exact Hq | | now apply available_iff].
        destruct (is_list (choice_of line)) eqn:E; [| reflexivity].
        apply is_list_iff in E. contradiction.
  - split; [trivial | now left].
  - split; [| intros []].
    intros [H | (l & H & _)]; discriminate H.
Qed.

Lemma advanced_iteration_goes_on ev :
  snd (Advanced.iteration execute config available_vars ev) = Continue <->
  ~ stops_advanced_loop execute available_vars ev.
Proof.
  rewrite <- advanced_iteration_stops.
  destruct (snd (Advanced.iteration execute config available_vars ev));
    split; congruence.
Qed.

(** The advanced loop is left at the first event that stops it, and only
    there. *)
Lemma advanced_loop_until inputs : forall unread,
  snd (Advanced.main_loop execute config available_vars inputs)
  = Terminated unread <->
  exists consumed ev,
    inputs = (consumed ++ ev :: unread)%list
    /\ Forall (fun e => ~ stops_advanced_loop execute available_vars e) consumed
    /\ stops_advanced_loop execute available_vars ev.
Proof.
  induction inputs as [| e rest IH]; intros unread.
  - cbn. split; [discriminate |].
    intros (consumed & ev & H & _). destruct consumed; discriminate H.
  - rewrite advanced_loop_cons.
    destruct (snd (Advanced.iteration execute config available_vars e)) eqn:E;
      cbn [snd].
    + apply advanced_iteration_goes_on in E. rewrite IH. split.
      * intros (consumed & ev & -> & Hc & Hs).
        exists (e :: consumed), ev. repeat split; auto.
      * intros (consumed & ev & H & Hc & Hs).
        destruct consumed as [| e' consumed]; cbn in H; injection H as -> H.
        -- contradiction.
        -- inversion Hc; subst. now exists consumed, ev.
    + apply advanced_iteration_stops in E. split.
      * intros H. injection H as <-. exists [], e. repeat split; auto.
      * intros (consumed & ev & H & Hc & Hs).
        destruct consumed as [| e' consumed]; cbn in H; injection H as -> H.
        -- now subst.
        -- inversion Hc; subst. contradiction.
Qed.

Lemma advanced_loop_quit line rest :
  In (lower (choice_of line)) ["quit"; "exit"; "q"] ->
  Advanced.main_loop execute config available_vars (Entered line :: rest)
  = ([Prompted input_prompt; Printed farewell], Terminated rest).
Proof.
  intros H. apply is_quit_iff in H.
  cbn [Advanced.main_loop]. unfold Advanced.iteration. cbn zeta.
  now rewrite H.
Qed.

Lemma advanced_loop_interrupted line out rest :
  selects available_vars (choice_of line) = true ->
  execute (choice_of line) = (out, Interrupted) ->
  Advanced.main_loop execute config available_vars (Entered line :: rest)
  = ((Prompted input_prompt :: Printed EmptyString :: out
        ++ [Printed (nl ++ farewell)])%list,
     Terminated rest).
Proof.
  intros Hsel Hrun. apply selects_true in Hsel as (Hq & Hl & Hk).
  cbn [Advanced.main_loop]. unfold Advanced.iteration. cbn zeta.
  now rewrite Hq, Hl, Hk, Hrun.
Qed.

(** The simple loop ends at the first entry whose execution returns: the
    turns before it went on, the inputs after it stay unread. *)
Lemma simple_loop_ends_at_first_execution before line out rest :
  Forall (fun ev =>
            snd (Simple.iteration execute config available_vars ev) = Continue)
         before ->
  selects available_vars (choice_of line) = true ->
  execute (choice_of line) = (out, Completed) ->
  snd (Simple.main_loop execute config available_vars
         (before ++ Entered line :: rest))
  = Terminated rest.
Proof.
  intros Hbefore Hsel Hrun.
  induction Hbefore as [| ev before Hev _ IH]; cbn [app Simple.main_loop].
  - now rewrite (simple_iteration_completed line out Hsel Hrun).
  - destruct (Simple.iteration execute config available_vars ev) as [o c].
    cbn [snd] in Hev. subst c.
    destruct (Simple.main_loop execute config available_vars
                (before ++ Entered line :: rest)).
    exact IH.
Qed.

(** As long as the entries are keys whose execution returns, the advanced
    loop is back at its prompt. *)
Lemma advanced_loop_keeps_prompting inputs :
  Forall (fun ev =>
            exists line out,
              ev = Entered line
              /\ selects available_vars (choice_of line) = true
              /\ execute (choice_of line) = (out, Completed))
         inputs ->
  snd (Advanced.main_loop execute config available_vars inputs) = Awaiting.
Proof.
  induction 1 as [| ev rest (line & out & -> & Hsel & Hrun) _ IH];
    [reflexivity |].
  cbn [Advanced.main_loop].
  rewrite (advanced_iteration_completed line out Hsel Hrun).
  destruct (Advanced.main_loop execute config available_vars rest).
  exact IH.
Qed.

End Loops.

(** C10.  In the simple script an entry that is an available key and
    whose execution returns ends the loop, the later inputs staying
    unread, and this happens at the first such entry; an entry handled
    without exception lets the loop go on exactly when it is the list
    command or no available key.  In the advanced
    script the same entry leaves the loop at its prompt with the later
    inputs still to be read, however many executions came before.  The
    advanced loop ends on an entry that reads quit, exit or q, on an
    interrupt at the prompt and on an interrupt during an execution, with
    the farewell as last line and the later inputs unread; it ends at the
    first such event of the inputs and on no other event. *)
Theorem C10_loops :
  (forall execute config available_vars line rest out,
      selects available_vars (choice_of line) = true ->
      execute (choice_of line) = (out, Completed) ->
      Simple.main_loop execute config available_vars (Entered line :: rest)
      = (Prompted input_prompt :: Printed EmptyString :: out, Terminated rest))
  /\ (forall execute config available_vars before line out rest,
         Forall (fun ev =>
                   snd (Simple.iteration execute config available_vars ev)
                   = Continue)
                before ->
         selects available_vars (choice_of line) = true ->
         execute (choice_of line) = (out, Completed) ->
         snd (Simple.main_loop execute config available_vars
                (before ++ Entered line :: rest))
         = Terminated rest)
  /\ (forall execute config available_vars line,
         (forall e, snd (execute (choice_of line)) <> Failed e) ->
         (snd (Simple.iteration execute config available_vars (Entered line))
          = Continue <->
          is_quit (choice_of line) = false
          /\ (is_list (choice_of line) = true
              \/ existsb (String.eqb (choice_of line)) available_vars = false)))
  /\ (forall execute config available_vars line rest out,
         selects available_vars (choice_of line) = true ->
         execute (choice_of line) = (out, Completed) ->
         Advanced.main_loop execute config available_vars (Entered line :: rest)
         = ((Prompted input_prompt :: Printed EmptyString :: out
               ++ fst (Advanced.main_loop execute config available_vars rest))%list,
            snd (Advanced.main_loop execute config available_vars rest)))
  /\ (forall execute config available_vars inputs,
         Forall (fun ev =>
                   exists line out,
                     ev = Entered line
                     /\ selects available_vars (choice_of line) = true
                     /\ execute (choice_of line) = (out, Completed))
                inputs ->
         snd (Advanced.main_loop execute config available_vars inputs)
         = Awaiting)
  /\ (forall execute config available_vars ev,
         snd (Advanced.iteration execute config available_vars ev) = Break <->
         ev = CtrlC
         \/ exists line,
              ev = Entered line
              /\ (is_quit (choice_of line) = true
                  \/ (selects available_vars (choice_of line) = true
                      /\ snd (execute (choice_of line)) = Interrupted)))
  /\ (forall execute config available_vars line rest,
         In (lower (choice_of line)) ["quit"; "exit"; "q"] ->
         Advanced.main_loop execute config available_vars (Entered line :: rest)
         = ([Prompted input_prompt; Printed farewell], Terminated rest))
  /\ (forall execute config available_vars rest,
         Advanced.main_loop execute config available_vars (CtrlC :: rest)
         = ([Prompted input_prompt; Printed (nl ++ farewell)],
            Terminated rest))
  /\ (forall execute config available_vars line out rest,
         selects available_vars (choice_of line) = true ->
         execute (choice_of line) = (out, Interrupted) ->
         Advanced.main_loop execute config available_vars (Entered line :: rest)
         = ((Prompted input_prompt :: Printed EmptyString :: out
               ++ [Printed (nl ++ farewell)])%list,
            Terminated rest))
  /\ (forall execute config available_vars inputs unread,
         snd (Advanced.main_loop execute config available_vars inputs)
         = Terminated unread <->
         exists consumed ev,
           inputs = (consumed ++ ev :: unread)%list
           /\ Forall (fun e =>
                        ~ stops_advanced_loop execute available_vars e)
                     consumed
           /\ stops_advanced_loop execute available_vars ev).
Proof.
  split; [| split; [| split; [| split; [| split; [| split;
    [| split; [| split; [| split]]]]]]]].
  - intros execute config available_vars line rest out Hsel Hrun.
    cbn [Simple.main_loop].
    now rewrite (simple_iteration_completed _ _ _ line out Hsel Hrun).
  - exact simple_loop_ends_at_first_execution.
  - intros execute config available_vars line Hok.
    rewrite simple_iteration_continue. split.
    + intros (Hq & [Hl | [Hk | (e & He)]]); auto. now apply Hok in He.
    + intros (Hq & [Hl | Hk]); auto.
  - intros execute config available_vars line rest out Hsel Hrun.
    cbn [Advanced.main_loop].
    rewrite (advanced_iteration_completed _ _ _ line out Hsel Hrun).
    destruct (Advanced.main_loop execute config available_vars rest).
    reflexivity.
  - exact advanced_loop_keeps_prompting.
  - exact advanced_iteration_break.
  - exact advanced_loop_quit.
  - reflexivity.
  - exact advanced_loop_interrupted.
  - intros execute config available_vars inputs unread.
    apply advanced_loop_until.
Qed.

Lemma C10_witness :
  Simple.main_loop (fun _ => ([], Completed)) Sample.config_marge
    ["MARGE_BRUTE"] [Entered " marge_brute "; Entered "marge_brute"]
  = ([Prompted input_prompt; Printed EmptyString],
     Terminated [Entered "marge_brute"])
  /\ snd (Advanced.main_loop (fun _ => ([], Completed)) Sample.config_marge
            ["MARGE_BRUTE"] [Entered " marge_brute "; Entered "marge_brute"])
     = Awaiting
  /\ snd (Simple.iteration (fun _ => ([], Completed)) Sample.config_marge
            ["MARGE_BRUTE"] (Entered "list")) = Continue
  /\ snd (Simple.main_loop (fun _ => ([], Completed)) Sample.config_marge
            ["MARGE_BRUTE"]
            ([Entered "list"; Entered "marge"]
               ++ Entered "Marge_Brute" :: [Entered "q"])%list)
     = Terminated [Entered "q"]
  /\ Advanced.main_loop (fun _ => ([], Completed)) Sample.config_marge
       ["MARGE_BRUTE"] [Entered " Exit "; Entered "marge_brute"]
     = ([Prompted input_prompt; Printed farewell],
        Terminated [Entered "marge_brute"])
  /\ snd (Advanced.main_loop (fun _ => ([], Completed)) Sample.config_marge
            ["MARGE_BRUTE"]
            ([Entered "marge_brute"; Entered "list"]
               ++ Entered "q" :: [Entered "marge_brute"])%list)
     = Terminated [Entered "marge_brute"]
  /\ Advanced.main_loop (fun _ => ([], Interrupted)) Sample.config_marge
       ["MARGE_BRUTE"] [Entered "marge_brute"; Entered "list"]
     = ([Prompted input_prompt; Printed EmptyString;
         Printed (nl ++ farewell)],
        Terminated [Entered "list"]).
Proof.
  destruct C10_loops
    as (Hsimple & Hfirst & Honly & _ & Hprompting & _ & Hquit & _
        & Hinterrupted & Huntil).
  split; [| split; [| split; [| split; [| split; [| split]]]]].
  - apply (Hsimple (fun _ => ([], Completed)) Sample.config_marge
             ["MARGE_BRUTE"] " marge_brute " [Entered "marge_brute"] []);
      reflexivity.
  - apply Hprompting.
    repeat constructor; eexists; exists []; repeat split; reflexivity.
  - apply Honly.
    + intros e. discriminate.
    + split; [reflexivity | left; reflexivity].
  - apply (Hfirst (fun _ => ([], Completed)) Sample.config_marge
             ["MARGE_BRUTE"] [Entered "list"; Entered "marge"]
             "Marge_Brute" [] [Entered "q"]).
    + repeat constructor.
    + reflexivity.
    + reflexivity.
  - apply Hquit. right. left. reflexivity.
  - apply Huntil.
    exists [Entered "marge_brute"; Entered "list"], (Entered "q").
    split; [reflexivity |]. split.
    + repeat constructor.
      * intros [H | (_ & _ & H)]; [| discriminate H].
        vm_compute in H. intuition discriminate.
      * intros [H | (H & _)]; [| now apply H].
        vm_compute in H. intuition discriminate.
    + left. right. right. left. reflexivity.
  - apply (Hinterrupted (fun _ => ([], Interrupted)) Sample.config_marge
             ["MARGE_BRUTE"] "marge_brute" [] [Entered "list"]);
      reflexivity.
Defined.

(** * Further properties of the scripts *)

(** ** Document names *)

Section MoreDocumentNames.

Lemma last_segment_from_plain b : forall cur,
  lacks "/"%char b = true -> last_segment_from cur b = cur ++ b.
Proof.
  induction b as [| c b IH]; intros cur Hb; cbn [last_segment_from].
  - now rewrite append_nil_r.
  - apply lacks_head in Hb as [Hc Hb].
    destruct (Ascii.eqb_spec c "/"%char) as [-> | _]; [contradiction |].
    rewrite (IH _ Hb), append_assoc. reflexivity.
Qed.

Lemma last_segment_from_slash a : forall cur b,
  last_segment_from cur (a ++ String "/"%char b) = last_segment b.
Proof.
  induction a as [| c a IH]; intros cur b; cbn [append last_segment_from].
  - reflexivity.
  - destruct (Ascii.eqb c "/"%char); apply IH.
Qed.

Lemma unquote_plain s : lacks "%"%char s = true -> unquote s = s.
Proof.
  induction s as [| c s IH]; intros Hs; [reflexivity |].
  apply lacks_head in Hs as [Hc Hs]. cbn [unquote].
  destruct (Ascii.eqb_spec c "%"%char) as [-> | _]; [contradiction |].
  now rewrite IH.
Qed.

End MoreDocumentNames.

Lemma extract_document_name_nonempty uri :
  extract_document_name uri <> EmptyString.
Proof.
  unfold extract_document_name.
  destruct (nonempty uri); cbn [negb]; [| discriminate].
  destruct (nonempty (last_segment uri)) eqn:Hseg; [| discriminate].
  apply unquote_nonempty. now apply nonempty_true.
Qed.

(** X1.  [extract_document_name] never returns the empty string, so the
    test [not doc_name] that follows its call in [execute_prompt] never
    holds. *)
Theorem extract_document_name_never_empty uri :
  extract_document_name uri <> EmptyString.
Proof. apply extract_document_name_nonempty. Qed.

(** X2.  The name extracted from a URI depends on what follows its last
    slash only: nothing gives "Document sans nom", a segment gives that
    segment percent-decoded, and a segment without percent sign is the
    name as it stands. *)
Theorem extract_document_name_after_last_slash folder segment :
  lacks "/"%char segment = true ->
  extract_document_name (folder ++ String "/"%char segment)
  = (if nonempty segment then unquote segment else "Document sans nom")
  /\ (segment <> EmptyString -> lacks "%"%char segment = true ->
      extract_document_name (folder ++ String "/"%char segment) = segment).
Proof.
  intros Hseg.
  assert (Hlast : last_segment (folder ++ String "/"%char segment) = segment).
  { unfold last_segment. rewrite last_segment_from_slash.
    unfold last_segment. now rewrite last_segment_from_plain. }
  assert (Hname :
    extract_document_name (folder ++ String "/"%char segment)
    = if nonempty segment then unquote segment else "Document sans nom").
  { unfold extract_document_name. rewrite Hlast.
    destruct folder; reflexivity. }
  split; [exact Hname |].
  intros Hne Hplain. rewrite Hname.
  apply nonempty_true in Hne. rewrite Hne. now apply unquote_plain.
Qed.

Lemma extract_document_name_after_last_slash_witness :
  extract_document_name ("gs://bucket/dossier" ++ String "/"%char "Bilan 2024.pdf")
  = "Bilan 2024.pdf".
Proof.
  apply (proj2 (extract_document_name_after_last_slash
                  "gs://bucket/dossier" "Bilan 2024.pdf" eq_refl)).
  - discriminate.
  - reflexivity.
Defined.

(** X3.  The three places that name a document agree up to their
    defaults: the name of a listing is the name of the document mapping
    or the unknown-document marker, and the name of the closing list is
    the name of a listing or the word "Document". *)
Theorem document_names_agree_up_to_defaults doc :
  (listed_doc_name doc = Simple.mapping_doc_name doc
   \/ listed_doc_name doc = "Document inconnu")
  /\ (Simple.relevant_doc_name doc = listed_doc_name doc
      \/ Simple.relevant_doc_name doc = "Document").
Proof.
  unfold listed_doc_name, Simple.mapping_doc_name, Simple.relevant_doc_name.
  destruct (struct_data doc) as [[| entry sd] |]; cbn zeta; try (split; auto).
  - destruct (nonempty (Dict.get (entry :: sd) "uri" EmptyString)) eqn:Huri.
    + destruct (String.eqb_spec
                  (extract_document_name (Dict.get (entry :: sd) "uri" EmptyString))
                  "Document inconnu") as [Hm | Hm]; [now right |].
      pose proof (extract_document_name_nonempty
                    (Dict.get (entry :: sd) "uri" EmptyString)) as Hne.
      apply nonempty_true in Hne. rewrite Hne. now left.
    + change ("Document inconnu" =? "Document inconnu")%string with true.
      cbn [orb].
      destruct (nonempty (Dict.get (entry :: sd) "title" EmptyString));
        [now left | now right].
  - destruct (nonempty (Dict.get (entry :: sd) "uri" EmptyString));
      [now left | now right].
Qed.

(** ** More on the result selector *)

Section MoreSelector.

Lemma score_zero_iff r :
  score r = 0 <->
  results r = [] /\ has_summary r = false /\ citation_count r = 0.
Proof.
  unfold score, result_count.
  destruct (results r) as [| x l]; cbn [List.length];
    destruct (has_summary r); split; intros H;
    try lia; try (destruct H as (H1 & H2 & H3); try discriminate; lia).
  repeat split. lia.
Qed.

(** [selected_score] is the greatest score of the sequence. *)
Lemma selected_score_bounds responses r :
  In (Some r) responses -> score r <= selected_score responses.
Proof.
  intros Hin. unfold selected_score.
  destruct (select_best_result_cases responses)
    as [[-> Hzero] | (best & -> & _ & _ & Hmax)].
  - specialize (Hzero r Hin). lia.
  - auto.
Qed.

Lemma selected_score_attained responses :
  selected_score responses = 0
  \/ exists r, In (Some r) responses /\ score r = selected_score responses.
Proof.
  unfold selected_score.
  destruct (select_best_result_cases responses)
    as [[-> _] | (best & -> & Hin & _ & _)]; [now left |].
  right. now exists best.
Qed.

Lemma selected_score_none responses :
  select_best_result responses = None <-> selected_score responses = 0.
Proof.
  unfold selected_score.
  destruct (select_best_result_cases responses)
    as [[-> _] | (best & -> & _ & Hpos & _)]; split; intros H;
    try reflexivity; try discriminate; lia.
Qed.

Lemma selected_score_incl l1 l2 :
  (forall r, In (Some r) l1 -> In (Some r) l2) ->
  selected_score l1 <= selected_score l2.
Proof.
  intros Hincl.
  destruct (selected_score_attained l1) as [-> | (r & Hin & <-)]; [lia |].
  apply selected_score_bounds. auto.
Qed.

End MoreSelector.

(** X4.  [select_best_result] returns nothing exactly when every present
    response has no result document, no summary text and no citation. *)
Theorem select_none_iff_nothing_found responses :
  select_best_result responses = None <->
  forall r,
    In (Some r) responses ->
    results r = [] /\ has_summary r = false /\ citation_count r = 0.
Proof.
  split.
  - intros Hnone r Hin. apply score_zero_iff.
    destruct (select_best_result_cases responses)
      as [[_ Hzero] | (best & Hsel & _)]; [auto | congruence].
  - intros H. apply select_all_zero. intros r Hin.
    apply score_zero_iff. auto.
Qed.

Lemma selected_score_permutation l1 l2 :
  Permutation l1 l2 ->
  selected_score l1 = selected_score l2
  /\ (select_best_result l1 = None <-> select_best_result l2 = None).
Proof.
  intros Hperm.
  assert (Heq : selected_score l1 = selected_score l2).
  { apply Nat.le_antisymm; apply selected_score_incl; intros r Hin.
    - apply (Permutation_in _ Hperm Hin).
    - apply (Permutation_in _ (Permutation_sym Hperm) Hin). }
  split; [exact Heq |].
  rewrite !selected_score_none, Heq. tauto.
Qed.

(** X5.  The order of the responses decides only between responses of
    equal score: two orders of the same responses select responses of the
    same score, and one selects nothing exactly when the other does. *)
Theorem selected_score_order_independent l1 l2 :
  Permutation l1 l2 ->
  selected_score l1 = selected_score l2
  /\ (select_best_result l1 = None <-> select_best_result l2 = None).
Proof. apply selected_score_permutation. Qed.

Lemma selected_score_order_independent_witness :
  selected_score [Some Sample.five_results; None; Some Sample.cited_summary]
  = selected_score [Some Sample.cited_summary; Some Sample.five_results; None].
Proof.
  apply selected_score_order_independent.
  apply (perm_trans (l' := [Some Sample.five_results;
                            Some Sample.cited_summary; None])).
  - apply perm_skip. apply perm_swap.
  - apply perm_swap.
Defined.

(** X6.  Selecting over two sequences put together gives the greater of
    the two selected scores. *)
Theorem selected_score_app l1 l2 :
  selected_score (l1 ++ l2) = Nat.max (selected_score l1) (selected_score l2).
Proof.
  apply Nat.le_antisymm.
  - destruct (selected_score_attained (l1 ++ l2)) as [-> | (r & Hin & <-)];
      [lia |].
    apply in_app_or in Hin as [Hin | Hin];
      apply selected_score_bounds in Hin; lia.
  - apply Nat.max_lub; apply selected_score_incl; intros r Hin;
      apply in_or_app; auto.
Qed.

(** X7.  Absent entries have no effect on the selection. *)
Theorem select_skips_absent l1 l2 :
  select_best_result (l1 ++ None :: l2) = select_best_result (l1 ++ l2).
Proof.
  unfold select_best_result. rewrite !fold_left_app. reflexivity.
Qed.

Lemma select_none_iff_nothing_found_witness :
  select_best_result [Some Sample.empty_response; None] = None.
Proof.
  apply select_none_iff_nothing_found.
  intros r [H | [H | []]]; [| discriminate H].
  injection H as <-. repeat split.
Defined.

(** ** More on the parallel executor *)

Section MoreExecutor.

Lemma gathered_seq w requests : forall slot,
  flat_map
    (fun i =>
       match nth_error requests (i - slot) with
       | Some request => [response_of (search w i request)]
       | None => []
       end)
    (seq slot (List.length requests))
  = slot_outcomes w slot requests.
Proof.
  induction requests as [| request rest IH]; intros slot; [reflexivity |].
  cbn [List.length seq flat_map slot_outcomes].
  rewrite Nat.sub_diag. cbn [nth_error app]. f_equal.
  rewrite <- IH. rewrite !flat_map_concat_map. f_equal.
  apply map_ext_in. intros i Hi.
  apply in_seq in Hi.
  replace (i - slot) with (S (i - S slot)) by lia. reflexivity.
Qed.

Lemma gathered_in_submission_order w requests :
  gathered w requests (seq 0 (List.length requests))
  = slot_outcomes w 0 requests.
Proof.
  rewrite <- gathered_seq. unfold gathered. apply flat_map_ext.
  intros i. now rewrite Nat.sub_0_r.
Qed.

Lemma slot_outcomes_length w requests : forall slot,
  List.length (slot_outcomes w slot requests) = List.length requests.
Proof.
  induction requests as [| request rest IH]; intros slot; cbn;
    [reflexivity | now rewrite IH].
Qed.

End MoreExecutor.

Lemma gathered_permutation w requests order :
  Permutation order (seq 0 (List.length requests)) ->
  Permutation (gathered w requests order) (slot_outcomes w 0 requests).
Proof.
  intros Hperm. rewrite <- gathered_in_submission_order. unfold gathered.
  now apply Permutation_flat_map.
Qed.

Section Futures.

Lemma flat_map_nth_seq {A B : Type} (f : A -> list B) (l : list A) :
  forall k,
    flat_map
      (fun i =>
         match nth_error l (i - k) with
         | Some x => f x
         | None => []
         end)
      (seq k (List.length l))
    = flat_map f l.
Proof.
  induction l as [| x l IH]; intros k; [reflexivity |].
  cbn [List.length seq flat_map]. rewrite Nat.sub_diag. cbn [nth_error].
  f_equal. rewrite <- (IH (S k)). rewrite !flat_map_concat_map. f_equal.
  apply map_ext_in. intros i Hi. apply in_seq in Hi.
  replace (i - k) with (S (i - S k)) by lia. reflexivity.
Qed.

Lemma flat_map_nth_seq0 {A B : Type} (f : A -> list B) (l : list A) :
  flat_map
    (fun i => match nth_error l i with Some x => f x | None => [] end)
    (seq 0 (List.length l))
  = flat_map f l.
Proof.
  rewrite <- (flat_map_nth_seq f l 0). apply flat_map_ext.
  intros i. now rewrite Nat.sub_0_r.
Qed.

Lemma submit_all_length w requests : forall slot,
  List.length (submit_all w slot requests) = List.length requests.
Proof.
  induction requests as [| request rest IH]; intros slot; cbn;
    [reflexivity | now rewrite IH].
Qed.

Lemma submit_all_results w requests : forall slot,
  map snd (submit_all w slot requests)
  = map Returned (slot_outcomes w slot requests).
Proof.
  induction requests as [| request rest IH]; intros slot;
    cbn [submit_all slot_outcomes map]; [reflexivity |].
  rewrite execute_single_search_outcome. cbn [snd]. now rewrite IH.
Qed.

(** What [collect] prints and returns: the outputs and the results of the
    futures it is given, taken in completion order. *)
Lemma collect_in_completion_order w requests order :
  collect (submit_all w 0 requests) order
  = (flat_map
       (fun i =>
          match nth_error (submit_all w 0 requests) i with
          | Some future => fst future
          | None => []
          end)
       order,
     Returned (gathered w requests order)).
Proof.
  induction order as [| i rest IH]; [reflexivity |].
  cbn [collect gathered flat_map]. rewrite submit_all_nth. cbn [Nat.add].
  destruct (nth_error requests i) as [request |]; cbn [option_map].
  - rewrite execute_single_search_outcome. unfold bind at 1.
    rewrite IH. cbn. now rewrite app_nil_r.
  - exact IH.
Qed.

End Futures.

(** X8.  [collect] waits for every submitted search and never raises:
    whatever the order in which the futures complete, the responses it
    returns are a rearrangement of the results of the submitted futures,
    one per request, and the lines it prints are a rearrangement of the
    warnings of these futures; no search is run twice and none is left
    out. *)
Theorem collect_one_outcome_per_request w requests order :
  Permutation order (seq 0 (List.length requests)) ->
  exists warnings responses,
    collect (submit_all w 0 requests) order = (warnings, Returned responses)
    /\ Permutation (map Returned responses)
                   (map snd (submit_all w 0 requests))
    /\ Permutation warnings (flat_map fst (submit_all w 0 requests))
    /\ List.length responses = List.length requests
    /\ Forall is_printed warnings.
Proof.
  intros Hperm.
  destruct (collect_submit_all w requests order) as (out & Hout & Hprinted).
  exists out, (gathered w requests order).
  pose proof (gathered_permutation w requests order Hperm) as Hg.
  split; [exact Hout |]. split; [| split; [| split]].
  - rewrite submit_all_results. now apply Permutation_map.
  - rewrite collect_in_completion_order in Hout. injection Hout as <-.
    rewrite <- (flat_map_nth_seq0 fst (submit_all w 0 requests)).
    rewrite submit_all_length.
    apply Permutation_flat_map. exact Hperm.
  - rewrite (Permutation_length Hg). apply slot_outcomes_length.
  - exact Hprinted.
Qed.

Lemma collect_one_outcome_per_request_witness :
  exists warnings responses,
    collect (submit_all Sample.world_one_failure 0 Sample.three_requests)
            [2; 0; 1]
    = (warnings, Returned responses)
    /\ Permutation (map Returned responses)
                   (map snd (submit_all Sample.world_one_failure 0
                               Sample.three_requests))
    /\ Permutation warnings
                   (flat_map fst (submit_all Sample.world_one_failure 0
                                    Sample.three_requests))
    /\ List.length responses = List.length Sample.three_requests
    /\ Forall is_printed warnings.
Proof.
  apply (collect_one_outcome_per_request Sample.world_one_failure
           Sample.three_requests [2; 0; 1]).
  cbn. apply Permutation_sym.
  apply (perm_trans (l' := [0; 2; 1])).
  - apply perm_skip. apply perm_swap.
  - apply perm_swap.
Defined.

(** X9.  The completion order of the requests has no influence on whether
    a response is selected nor on the score of the selected response. *)
Theorem selection_independent_of_completion_order w requests order1 order2 :
  Permutation order1 (seq 0 (List.length requests)) ->
  Permutation order2 (seq 0 (List.length requests)) ->
  selected_score (gathered w requests order1)
  = selected_score (gathered w requests order2)
  /\ (select_best_result (gathered w requests order1) = None <->
      select_best_result (gathered w requests order2) = None).
Proof.
  intros H1 H2. apply selected_score_permutation.
  apply (perm_trans (l' := slot_outcomes w 0 requests)).
  - now apply gathered_permutation.
  - apply Permutation_sym. now apply gathered_permutation.
Qed.

Lemma selection_independent_of_completion_order_witness :
  selected_score
    (gathered Sample.world_one_failure Sample.three_requests [0; 1; 2])
  = selected_score
      (gathered Sample.world_one_failure Sample.three_requests [2; 0; 1]).
Proof.
  apply (selection_independent_of_completion_order Sample.world_one_failure
           Sample.three_requests [0; 1; 2] [2; 0; 1]).
  - apply Permutation_refl.
  - cbn. apply Permutation_sym.
    apply (perm_trans (l' := [0; 2; 1])).
    + apply perm_skip. apply perm_swap.
    + apply perm_swap.
Defined.

(** ** More on [execute_optimized_prompt] *)

Section MoreExecution.

(** The three ways the [try] block can end. *)
Lemma search_and_select_cases w prompt_key base_query system_prompt :
  (exists e,
      search_and_select w prompt_key base_query system_prompt = ([], Raised e)
      /\ (load_client w = Raised e
          \/ create_optimized_queries base_query prompt_key = Raised e))
  \/ (exists queries warnings,
         load_client w = Returned tt
         /\ create_optimized_queries base_query prompt_key = Returned queries
         /\ Forall is_printed warnings
         /\ let responses :=
              gathered w
                (map (fun query =>
                        create_optimized_request query prompt_key system_prompt
                          the_serving_config) queries)
                (completion_order w) in
            match select_best_result responses with
            | None =>
                search_and_select w prompt_key base_query system_prompt
                = ((warnings ++ [Printed "❌ Aucun résultat obtenu"])%list,
                   Returned None)
            | Some best =>
                search_and_select w prompt_key base_query system_prompt
                = ((warnings ++ [Displayed best])%list, Returned (Some best))
            end).
Proof.
  unfold search_and_select.
  destruct (load_client w) as [[] | e] eqn:Hload.
  - destruct (create_optimized_queries base_query prompt_key)
      as [queries | e] eqn:Hq.
    + right. exists queries.
      unfold lift. cbn [bind app].
      destruct (collect_submit_all w
                  (map (fun query =>
                          create_optimized_request query prompt_key
                            system_prompt the_serving_config) queries)
                  (completion_order w)) as (warnings & Hcollect & Hprinted).
      exists warnings. repeat split; try assumption.
      cbn zeta. rewrite Hcollect. cbn [bind app].
      destruct (select_best_result _); reflexivity.
    + left. exists e. split; [reflexivity | now right].
  - left. exists e. split; [reflexivity | now left].
Qed.

(** A located prompt with a text: the header, then the guarded block. *)
Lemma execute_located w prompt_key config prompt_data prompt_text :
  locate_prompt config prompt_key = Some prompt_data ->
  prompt prompt_data = Some prompt_text ->
  exists base_query system_prompt,
    base_query = replace_template_variables prompt_text (Some config)
    /\ execute_optimized_prompt w prompt_key config
       = (let (out, r) :=
            try_except
              (search_and_select w prompt_key base_query system_prompt)
              (fun e => print ("❌ Erreur: " ++ exn_str e) ;; ret None) in
          (Printed ("🎯 Variable: " ++ prompt_key)
             :: Printed (repeat_string "=" 60) :: out, r)).
Proof.
  intros Hloc Hprompt. unfold execute_optimized_prompt.
  rewrite Hloc, Hprompt. cbn zeta.
  exists (replace_template_variables prompt_text (Some config)).
  exists (system_prompt_of prompt_key config
            (replace_template_variables
               (match instructions prompt_data with
                | Some i => i
                | None => EmptyString
                end) (Some config))).
  split; [reflexivity |].
  destruct (try_except _ _) as [out r]. reflexivity.
Qed.

End MoreExecution.

(** X10.  A prompt entry without the key "prompt" makes
    [execute_optimized_prompt] raise KeyError before it prints anything.
    With an entry that has a prompt text, the call returns normally
    whatever happens in its guarded block, and it returns [None] when the
    client cannot be built, when the resolved text has no token and when
    every search fails. *)
Theorem execute_outcome_by_prompt_entry w prompt_key config prompt_data :
  locate_prompt config prompt_key = Some prompt_data ->
  (prompt prompt_data = None ->
   execute_optimized_prompt w prompt_key config
   = ([], Raised (KeyError "prompt")))
  /\ (forall prompt_text,
         prompt prompt_data = Some prompt_text ->
         exists out result,
           execute_optimized_prompt w prompt_key config
           = (out, Returned result)
           /\ (load_client w <> Returned tt -> result = None)
           /\ (split (replace_template_variables prompt_text (Some config))
               = [] -> result = None)
           /\ ((forall slot request,
                   exists e, search w slot request = Raised e) ->
               result = None)).
Proof.
  intros Hloc. split.
  - intros Hprompt. unfold execute_optimized_prompt.
    now rewrite Hloc, Hprompt.
  - intros prompt_text Hprompt.
    destruct (execute_located w _ _ _ _ Hloc Hprompt) as (q & sp & -> & ->).
    destruct (search_and_select_cases w prompt_key
                (replace_template_variables prompt_text (Some config)) sp)
      as [(e' & -> & _) | (qs & ws & Hload & Hqs & _ & Hsel)].
    + cbn. eexists. exists None. split; [reflexivity |]. auto.
    + cbn zeta in Hsel.
      destruct (select_best_result _) as [best |] eqn:Hbest;
        rewrite Hsel; cbn; eexists; eexists; (split; [reflexivity |]).
      * split; [congruence |]. split.
        -- intros Hblank.
           rewrite (create_optimized_queries_blank _ _ Hblank) in Hqs.
           discriminate Hqs.
        -- intros Hfail.
           apply select_some_positive in Hbest as (Hin & _ & _).
           apply gathered_In in Hin as (slot & request & _ & Hres).
           destruct (Hfail slot request) as (e & He). congruence.
      * auto.
Qed.

Lemma execute_outcome_by_prompt_entry_witness :
  execute_optimized_prompt Sample.world_one_failure "BILAN"
    Sample.config_without_prompt
  = ([], Raised (KeyError "prompt"))
  /\ exists out result,
       execute_optimized_prompt Sample.world_failure_and_nothing_found
         "CHIFFRE_AFFAIRES" Sample.config_blank
       = (out, Returned result)
       /\ (split (replace_template_variables EmptyString
                    (Some Sample.config_blank)) = [] -> result = None).
Proof.
  split.
  - refine (proj1 (execute_outcome_by_prompt_entry Sample.world_one_failure
                     "BILAN" Sample.config_without_prompt
                     Sample.entry_without_prompt eq_refl) eq_refl).
  - destruct (proj2 (execute_outcome_by_prompt_entry
                       Sample.world_failure_and_nothing_found
                       "CHIFFRE_AFFAIRES" Sample.config_blank
                       {| prompt := Some EmptyString;
                          instructions := Some "Répondre en français.";
                          pd_other_keys := false |} eq_refl)
                    EmptyString eq_refl)
      as (out & result & Hrun & _ & Hblank & _).
    exists out, result. split; [exact Hrun | exact Hblank].
Defined.

(** X11.  A response returned by [execute_optimized_prompt] is one the
    search service returned in this run; it has a positive score, it was
    displayed, and the client had been built. *)
Theorem execute_returns_a_service_response w prompt_key config out r :
  execute_optimized_prompt w prompt_key config = (out, Returned (Some r)) ->
  0 < score r
  /\ (exists slot request, search w slot request = Returned r)
  /\ In (Displayed r) out
  /\ load_client w = Returned tt.
Proof.
  intros Hrun.
  destruct (locate_prompt config prompt_key) as [pd |] eqn:Hloc;
    [| unfold execute_optimized_prompt in Hrun; rewrite Hloc in Hrun;
       discriminate Hrun].
  destruct (prompt pd) as [text |] eqn:Hprompt;
    [| unfold execute_optimized_prompt in Hrun;
       rewrite Hloc, Hprompt in Hrun; discriminate Hrun].
  destruct (execute_located w _ _ _ _ Hloc Hprompt) as (q & sp & _ & Heq).
  rewrite Heq in Hrun. clear Heq.
  destruct (search_and_select_cases w prompt_key q sp)
    as [(e' & Hs & _) | (qs & ws & Hload & _ & _ & Hsel)].
  - rewrite Hs in Hrun. discriminate Hrun.
  - cbn zeta in Hsel.
    destruct (select_best_result _) as [best |] eqn:Hbest;
      rewrite Hsel in Hrun; cbn in Hrun; [| discriminate Hrun].
    injection Hrun as <- <-.
    apply select_some_positive in Hbest as (Hin & Hpos & _).
    apply gathered_In in Hin as (slot & request & _ & Hres).
    repeat split.
    + exact Hpos.
    + now exists slot, request.
    + right. right. apply in_or_app. right. now left.
    + exact Hload.
Qed.

Lemma execute_returns_a_service_response_witness :
  0 < score Sample.cited_summary
  /\ (exists slot request,
         search Sample.world_one_failure slot request
         = Returned Sample.cited_summary).
Proof.
  destruct (execute_returns_a_service_response Sample.world_one_failure
              "MARGE_BRUTE" Sample.config_marge _ Sample.cited_summary
              eq_refl) as (H1 & H2 & _).
  split; assumption.
Defined.

(** X12.  With a located prompt text that has a token and a client that
    could be built, one request that returns a response with a positive
    score is enough: whatever the other two requests do,
    [execute_optimized_prompt] displays and returns a response scoring at
    least as much. *)
Theorem execute_returns_when_one_request_succeeds
  w prompt_key config prompt_data prompt_text slot r :
  locate_prompt config prompt_key = Some prompt_data ->
  prompt prompt_data = Some prompt_text ->
  load_client w = Returned tt ->
  split (replace_template_variables prompt_text (Some config)) <> [] ->
  Permutation (completion_order w) (seq 0 3) ->
  slot < 3 ->
  (forall request, search w slot request = Returned r) ->
  0 < score r ->
  exists warnings best,
    execute_optimized_prompt w prompt_key config
    = ((Printed ("🎯 Variable: " ++ prompt_key)
          :: Printed (repeat_string "=" 60)
          :: warnings ++ [Displayed best])%list,
       Returned (Some best))
    /\ Forall is_printed warnings
    /\ score r <= score best.
Proof.
  intros Hloc Hprompt Hload Htoken Hperm Hslot Hres Hpos.
  destruct (execute_located w _ _ _ _ Hloc Hprompt) as (q & sp & Hq & ->).
  subst q.
  destruct (search_and_select_cases w prompt_key
              (replace_template_variables prompt_text (Some config)) sp)
    as [(e' & _ & [He | He]) | (qs & ws & _ & Hqs & Hprinted & Hsel)].
  - congruence.
  - unfold create_optimized_queries in He.
    destruct (split _); [contradiction | discriminate He].
  - cbn zeta in Hsel.
    pose proof (create_optimized_queries_length _ _ _ Hqs) as Hlen.
    set (requests :=
           map (fun query =>
                  create_optimized_request query prompt_key sp
                    the_serving_config) qs) in *.
    assert (Hreq : exists request, nth_error requests slot = Some request).
    { destruct (nth_error requests slot) eqn:E; [eauto |].
      apply nth_error_None in E. unfold requests in E.
      rewrite length_map in E. lia. }
    destruct Hreq as (request & Hreq).
    assert (Hin : In (Some r) (gathered w requests (completion_order w))).
    { apply (In_gathered w requests _ slot request r);
        [| exact Hreq | apply Hres].
      apply (Permutation_in slot (Permutation_sym Hperm)).
      apply in_seq. lia. }
    destruct (select_best_result_cases
                (gathered w requests (completion_order w)))
      as [[_ Hzero] | (best & Hbest & _ & _ & Hmax)].
    + specialize (Hzero r Hin). lia.
    + rewrite Hbest in Hsel. rewrite Hsel. cbn.
      exists ws, best. repeat split; auto.
Qed.

Lemma execute_returns_when_one_request_succeeds_witness :
  exists warnings best,
    execute_optimized_prompt Sample.world_one_failure "MARGE_BRUTE"
      Sample.config_marge
    = ((Printed "🎯 Variable: MARGE_BRUTE"
          :: Printed (repeat_string "=" 60)
          :: warnings ++ [Displayed best])%list,
       Returned (Some best))
    /\ Forall is_printed warnings
    /\ score Sample.five_results <= score best.
Proof.
  apply (execute_returns_when_one_request_succeeds Sample.world_one_failure
           "MARGE_BRUTE" Sample.config_marge
           {| prompt := Some "Quelle est la marge de {company} ?";
              instructions := None; pd_other_keys := false |}
           "Quelle est la marge de {company} ?" 1 Sample.five_results).
  - reflexivity.
  - reflexivity.
  - reflexivity.
  - vm_compute. discriminate.
  - cbn. apply Permutation_sym.
    apply (perm_trans (l' := [0; 2; 1])).
    + apply perm_skip. apply perm_swap.
    + apply perm_swap.
  - lia.
  - reflexivity.
  - vm_compute. lia.
Defined.

(** X13.  When the client cannot be built, the run prints its header and
    the error, returns [None] and issues no search request: the result is
    the same whatever the search service would have answered. *)
Theorem execute_without_client w prompt_key config prompt_data prompt_text e :
  locate_prompt config prompt_key = Some prompt_data ->
  prompt prompt_data = Some prompt_text ->
  load_client w = Raised e ->
  execute_optimized_prompt w prompt_key config
  = ([ Printed ("🎯 Variable: " ++ prompt_key);
       Printed (repeat_string "=" 60);
       Printed ("❌ Erreur: " ++ exn_str e) ],
     Returned None).
Proof.
  intros Hloc Hprompt Hload.
  destruct (execute_located w _ _ _ _ Hloc Hprompt) as (q & sp & _ & ->).
  unfold search_and_select. rewrite Hload. reflexivity.
Qed.

Lemma execute_without_client_witness :
  execute_optimized_prompt
    {| load_client := Raised (ServiceError "config.json: no such file");
       search := search Sample.world_one_failure;
       completion_order := [0; 1; 2] |}
    "MARGE_BRUTE" Sample.config_marge
  = ([ Printed "🎯 Variable: MARGE_BRUTE";
       Printed (repeat_string "=" 60);
       Printed "❌ Erreur: config.json: no such file" ],
     Returned None).
Proof.
  refine (execute_without_client
            {| load_client := Raised (ServiceError "config.json: no such file");
               search := search Sample.world_one_failure;
               completion_order := [0; 1; 2] |}
            "MARGE_BRUTE" Sample.config_marge
            {| prompt := Some "Quelle est la marge de {company} ?";
               instructions := None; pd_other_keys := false |}
            "Quelle est la marge de {company} ?"
            (ServiceError "config.json: no such file") _ _ _); reflexivity.
Defined.

(** ** The listing of the variables and the lookup of a prompt *)

Section Listing.

Lemma lookup_in_keys {A : Type} (d : Dict.t A) key v :
  Dict.lookup d key = Some v -> In key (Dict.keys d).
Proof.
  induction d as [| [k x] d IH]; cbn; [discriminate |].
  destruct (String.eqb_spec k key) as [-> | _]; [now left |].
  intros H. right. now apply IH.
Qed.

Lemma in_keys_lookup {A : Type} (d : Dict.t A) key :
  In key (Dict.keys d) -> exists v, Dict.lookup d key = Some v.
Proof.
  induction d as [| [k x] d IH]; cbn; [intros [] |].
  destruct (String.eqb_spec k key) as [-> | Hne]; [now exists x |].
  intros [H | H]; [contradiction | now apply IH].
Qed.

Lemma available_variables config :
  snd (list_available_variables (Some config))
  = ((match prompts_config config with Some d => Dict.keys d | None => [] end)
       ++ (match prompts_config_final config with
           | Some d => Dict.keys d
           | None => []
           end))%list.
Proof.
  unfold list_available_variables, list_section.
  destruct (prompts_config config), (prompts_config_final config); reflexivity.
Qed.

Lemma find_prompt_some section key pd :
  find_prompt section key = Some pd ->
  exists d, section = Some d /\ Dict.lookup d key = Some pd
            /\ pd_truthy pd = true.
Proof.
  unfold find_prompt. destruct section as [d |]; [| discriminate].
  destruct (Dict.lookup d key) as [pd' |] eqn:Hl; [| discriminate].
  destruct (pd_truthy pd') eqn:Ht; [| discriminate].
  intros H. injection H as <-. now exists d.
Qed.

Lemma find_prompt_none d key pd :
  find_prompt (Some d) key = None -> Dict.lookup d key = Some pd ->
  pd_truthy pd = false.
Proof.
  unfold find_prompt. intros H Hl. rewrite Hl in H.
  destruct (pd_truthy pd); [discriminate H | reflexivity].
Qed.

End Listing.

(** X14.  Every prompt [execute_optimized_prompt] can locate is among the
    listed variables, and every entry with a prompt text, in either
    section, makes its key a listed variable that can be located. *)
Theorem located_prompts_are_listed config key :
  (forall prompt_data,
      locate_prompt config key = Some prompt_data ->
      In key (snd (list_available_variables (Some config))))
  /\ (forall d prompt_data prompt_text,
         prompts_config config = Some d
         \/ prompts_config_final config = Some d ->
         Dict.lookup d key = Some prompt_data ->
         prompt prompt_data = Some prompt_text ->
         In key (snd (list_available_variables (Some config)))
         /\ exists located, locate_prompt config key = Some located).
Proof.
  assert (Hlisted : forall prompt_data,
             locate_prompt config key = Some prompt_data ->
             In key (snd (list_available_variables (Some config)))).
  { rewrite available_variables. unfold locate_prompt.
    intros pd H. apply in_or_app.
    destruct (find_prompt (prompts_config config) key) as [pd1 |] eqn:H1.
    - apply find_prompt_some in H1 as (d & -> & Hl & _).
      left. now apply lookup_in_keys in Hl.
    - apply find_prompt_some in H as (d & -> & Hl & _).
      right. now apply lookup_in_keys in Hl. }
  split; [exact Hlisted |].
  intros d pd text Hd Hl Hprompt.
  assert (Htruthy : pd_truthy pd = true)
    by (unfold pd_truthy; now rewrite Hprompt).
  assert (Hloc : exists located, locate_prompt config key = Some located).
  { unfold locate_prompt.
    destruct (find_prompt (prompts_config config) key) as [pd1 |] eqn:H1;
      [now exists pd1 |].
    destruct Hd as [Hd | Hd].
    - rewrite Hd in H1.
      rewrite (find_prompt_none d key pd H1 Hl) in Htruthy.
      discriminate Htruthy.
    - exists pd. unfold find_prompt. now rewrite Hd, Hl, Htruthy. }
  split; [| exact Hloc].
  destruct Hloc as (located & Hlocated). now apply (Hlisted located).
Qed.

Lemma located_prompts_are_listed_witness :
  In "MARGE_BRUTE" (snd (list_available_variables (Some Sample.config_marge)))
  /\ exists located,
       locate_prompt Sample.config_both "BILAN" = Some located.
Proof.
  split.
  - refine (proj1 (located_prompts_are_listed Sample.config_marge
                     "MARGE_BRUTE") _ _).
    reflexivity.
  - refine (proj2 (proj2 (located_prompts_are_listed Sample.config_both
                            "BILAN")
                     [ ("BILAN", Sample.entry_of "Bilan final ?") ]
                     (Sample.entry_of "Bilan final ?") "Bilan final ?"
                     (or_intror eq_refl) eq_refl eq_refl)).
Defined.

(** X15.  A key present in both sections takes its prompt from
    [prompts_config] and, when the settings define it, its base
    instruction from [base_instruction_final]. *)
Theorem key_of_both_sections config key d d' prompt_data prompt_data' ds
  final_instruction :
  prompts_config config = Some d ->
  Dict.lookup d key = Some prompt_data ->
  pd_truthy prompt_data = true ->
  prompts_config_final config = Some d' ->
  Dict.lookup d' key = Some prompt_data' ->
  default_settings config = Some ds ->
  base_instruction_final ds = Some final_instruction ->
  locate_prompt config key = Some prompt_data
  /\ system_prompt_of key config EmptyString = final_instruction
  /\ forall instructions,
       instructions <> EmptyString ->
       system_prompt_of key config instructions
       = final_instruction ++ nl ++ nl ++ instructions.
Proof.
  intros Hd Hl Ht Hd' Hl' Hds Hfinal.
  assert (Hbase : forall default,
             setting config base_instruction_final default = final_instruction).
  { intros default. unfold setting. now rewrite Hds, Hfinal. }
  split; [| split].
  - unfold locate_prompt, find_prompt. now rewrite Hd, Hl, Ht.
  - unfold system_prompt_of, Dict.mem. rewrite Hd', Hl'. cbn [nonempty].
    apply Hbase.
  - intros instructions Hne. unfold system_prompt_of, Dict.mem.
    rewrite Hd', Hl'. apply nonempty_true in Hne. rewrite Hne.
    now rewrite Hbase.
Qed.

Lemma key_of_both_sections_witness :
  locate_prompt Sample.config_both "BILAN"
  = Some (Sample.entry_of "Quel est le bilan ?")
  /\ system_prompt_of "BILAN" Sample.config_both EmptyString
     = "Synthèse finale.".
Proof.
  refine ((fun H => conj (proj1 H) (proj1 (proj2 H)))
            (key_of_both_sections Sample.config_both "BILAN"
               [ ("BILAN", Sample.entry_of "Quel est le bilan ?") ]
               [ ("BILAN", Sample.entry_of "Bilan final ?") ]
               (Sample.entry_of "Quel est le bilan ?")
               (Sample.entry_of "Bilan final ?")
               {| base_instruction := Some "Analyse.";
                  base_instruction_final := Some "Synthèse finale." |}
               "Synthèse finale."
               eq_refl eq_refl eq_refl eq_refl eq_refl eq_refl eq_refl)).
Defined.

(** ** More on the interactive loops *)

Section MoreLoops.

Variable execute : string -> list Out * Signal.
Variable config : Config.
Variable available_vars : list string.

Lemma simple_loop_cons ev rest :
  Simple.main_loop execute config available_vars (ev :: rest)
  = match snd (Simple.iteration execute config available_vars ev) with
    | Break =>
        (Prompted input_prompt
           :: fst (Simple.iteration execute config available_vars ev),
         Terminated rest)
    | Continue =>
        ((Prompted input_prompt
            :: fst (Simple.iteration execute config available_vars ev)
            ++ fst (Simple.main_loop execute config available_vars rest))%list,
         snd (Simple.main_loop execute config available_vars rest))
    end.
Proof.
  cbn [Simple.main_loop].
  destruct (Simple.iteration execute config available_vars ev) as [out []];
    cbn [fst snd]; [| reflexivity].
  destruct (Simple.main_loop execute config available_vars rest).
  reflexivity.
Qed.

Lemma advanced_loop_after_termination inputs : forall out unread more,
  Advanced.main_loop execute config available_vars inputs
  = (out, Terminated unread) ->
  Advanced.main_loop execute config available_vars (inputs ++ more)
  = (out, Terminated (unread ++ more)%list).
Proof.
  induction inputs as [| ev rest IH]; intros out unread more H;
    [discriminate H |].
  cbn [app]. rewrite advanced_loop_cons in *.
  destruct (snd (Advanced.iteration execute config available_vars ev)).
  - destruct (Advanced.main_loop execute config available_vars rest)
      as [out' st] eqn:E.
    cbn [fst snd] in H. injection H as <- ->.
    now rewrite (IH _ _ more eq_refl).
  - injection H as <- <-. reflexivity.
Qed.

Lemma simple_loop_after_termination inputs : forall out unread more,
  Simple.main_loop execute config available_vars inputs
  = (out, Terminated unread) ->
  Simple.main_loop execute config available_vars (inputs ++ more)
  = (out, Terminated (unread ++ more)%list).
Proof.
  induction inputs as [| ev rest IH]; intros out unread more H;
    [discriminate H |].
  cbn [app]. rewrite simple_loop_cons in *.
  destruct (snd (Simple.iteration execute config available_vars ev)).
  - destruct (Simple.main_loop execute config available_vars rest)
      as [out' st] eqn:E.
    cbn [fst snd] in H. injection H as <- ->.
    now rewrite (IH _ _ more eq_refl).
  - injection H as <- <-. reflexivity.
Qed.

Lemma advanced_loop_awaiting inputs :
  snd (Advanced.main_loop execute config available_vars inputs) = Awaiting <->
  Forall (fun ev =>
            snd (Advanced.iteration execute config available_vars ev)
            = Continue) inputs.
Proof.
  induction inputs as [| ev rest IH]; [split; [constructor | reflexivity] |].
  rewrite advanced_loop_cons.
  destruct (snd (Advanced.iteration execute config available_vars ev)) eqn:E;
    cbn [snd].
  - rewrite IH. split; [now constructor |]. now inversion 1.
  - split; [discriminate |]. inversion 1. congruence.
Qed.

Lemma simple_loop_awaiting inputs :
  snd (Simple.main_loop execute config available_vars inputs) = Awaiting <->
  Forall (fun ev =>
            snd (Simple.iteration execute config available_vars ev)
            = Continue) inputs.
Proof.
  induction inputs as [| ev rest IH]; [split; [constructor | reflexivity] |].
  rewrite simple_loop_cons.
  destruct (snd (Simple.iteration execute config available_vars ev)) eqn:E;
    cbn [snd].
  - rewrite IH. split; [now constructor |]. now inversion 1.
  - split; [discriminate |]. inversion 1. congruence.
Qed.

End MoreLoops.

(** X16.  Once a loop has ended, it reads nothing more: inputs that follow
    stay unread and add nothing to the output, in both scripts. *)
Theorem inputs_after_termination_stay_unread
  execute config available_vars inputs out unread more :
  (Advanced.main_loop execute config available_vars inputs
   = (out, Terminated unread) ->
   Advanced.main_loop execute config available_vars (inputs ++ more)
   = (out, Terminated (unread ++ more)%list))
  /\ (Simple.main_loop execute config available_vars inputs
      = (out, Terminated unread) ->
      Simple.main_loop execute config available_vars (inputs ++ more)
      = (out, Terminated (unread ++ more)%list)).
Proof.
  split.
  - apply advanced_loop_after_termination.
  - apply simple_loop_after_termination.
Qed.

Lemma inputs_after_termination_stay_unread_witness :
  snd (Advanced.main_loop (fun _ => ([], Completed)) Sample.config_marge
         ["MARGE_BRUTE"] ([Entered "marge_brute"; Entered "quit"]
                            ++ [Entered "marge_brute"])%list)
  = Terminated [Entered "marge_brute"].
Proof.
  refine (f_equal snd
            (proj1 (inputs_after_termination_stay_unread
                      (fun _ => ([], Completed)) Sample.config_marge
                      ["MARGE_BRUTE"] [Entered "marge_brute"; Entered "quit"]
                      _ [] [Entered "marge_brute"]) eq_refl)).
Defined.

(** X17.  A loop is still at its prompt after a sequence of inputs exactly
    when every turn of the sequence went on, in both scripts. *)
Theorem loop_awaits_iff_every_turn_continues
  execute config available_vars inputs :
  (snd (Advanced.main_loop execute config available_vars inputs) = Awaiting <->
   Forall (fun ev =>
             snd (Advanced.iteration execute config available_vars ev)
             = Continue) inputs)
  /\ (snd (Simple.main_loop execute config available_vars inputs) = Awaiting <->
      Forall (fun ev =>
                snd (Simple.iteration execute config available_vars ev)
                = Continue) inputs).
Proof.
  split; [apply advanced_loop_awaiting | apply simple_loop_awaiting].
Qed.

Lemma loop_awaits_iff_every_turn_continues_witness :
  snd (Simple.main_loop (fun _ => ([], Completed)) Sample.config_marge
         ["MARGE_BRUTE"] [Entered "list"; Entered "inconnue"])
  = Awaiting.
Proof.
  apply (proj2 (loop_awaits_iff_every_turn_continues
                  (fun _ => ([], Completed)) Sample.config_marge
                  ["MARGE_BRUTE"] [Entered "list"; Entered "inconnue"])).
  repeat constructor.
Defined.

(** X18.  A prompt named QUIT, EXIT, Q or LIST can never be executed from
    the loop: the entry is taken as the command, and the turn is the same
    whatever the execution would do, in both scripts. *)
Theorem command_names_shadow_prompts
  execute execute' config available_vars line :
  In (choice_of line) ["QUIT"; "EXIT"; "Q"; "LIST"] ->
  Advanced.iteration execute config available_vars (Entered line)
  = Advanced.iteration execute' config available_vars (Entered line)
  /\ Simple.iteration execute config available_vars (Entered line)
     = Simple.iteration execute' config available_vars (Entered line)
  /\ selects available_vars (choice_of line) = false.
Proof.
  intros Hin. unfold Advanced.iteration, Simple.iteration, selects.
  cbn zeta.
  destruct Hin as [<- | [<- | [<- | [<- | []]]]];
    repeat split; reflexivity.
Qed.

Lemma command_names_shadow_prompts_witness :
  Advanced.iteration (fun _ => ([], Completed)) Sample.config_marge
    ["QUIT"; "LIST"] (Entered " quit ")
  = Advanced.iteration (fun _ => ([], Interrupted)) Sample.config_marge
      ["QUIT"; "LIST"] (Entered " quit ").
Proof.
  apply (command_names_shadow_prompts (fun _ => ([], Completed))
           (fun _ => ([], Interrupted)) Sample.config_marge
           ["QUIT"; "LIST"] " quit ").
  left. reflexivity.
Defined.

(** X19.  Without a configuration, or with a configuration that lists no
    variable, [main] returns without reading any input and without
    executing anything, in both scripts. *)
Theorem main_without_variables file execute execute' inputs inputs' :
  snd (list_available_variables (snd (load_prompts_config file))) = [] ->
  snd (Advanced.main file execute inputs) = Terminated inputs
  /\ fst (Advanced.main file execute inputs)
     = fst (Advanced.main file execute' inputs')
  /\ snd (Simple.main file execute inputs) = Terminated inputs
  /\ fst (Simple.main file execute inputs)
     = fst (Simple.main file execute' inputs').
Proof.
  unfold Advanced.main, Simple.main.
  destruct (load_prompts_config file) as [out [cfg |]]; cbn [snd].
  - destruct (list_available_variables (Some cfg)) as [listing vars].
    cbn [snd]. intros ->. repeat split.
  - intros _. repeat split.
Qed.

Lemma main_without_variables_witness :
  snd (Simple.main InvalidJSON (fun _ _ => ([], Completed)) [Entered "q"])
  = Terminated [Entered "q"].
Proof.
  refine (proj1 (proj2 (proj2
            (main_without_variables InvalidJSON
               (fun _ _ => ([], Completed)) (fun _ _ => ([], Completed))
               [Entered "q"] [] _)))).
  reflexivity.
Defined.

(** ** The document mapping and the cited documents *)

Section Mapping.

Lemma lookup_set_same {A : Type} (d : Dict.t A) key v :
  Dict.lookup (Dict.set d key v) key = Some v.
Proof.
  induction d as [| [k x] d IH]; cbn.
  - now rewrite String.eqb_refl.
  - destruct (String.eqb_spec k key) as [-> | Hne]; cbn.
    + now rewrite String.eqb_refl.
    + destruct (String.eqb_spec k key); [contradiction | exact IH].
Qed.

Lemma lookup_set_other {A : Type} (d : Dict.t A) key key' v :
  key' <> key ->
  Dict.lookup (Dict.set d key v) key' = Dict.lookup d key'.
Proof.
  intros Hne. induction d as [| [k x] d IH]; cbn.
  - destruct (String.eqb_spec key key'); [congruence | reflexivity].
  - destruct (String.eqb_spec k key) as [-> | Hk]; cbn.
    + destruct (String.eqb_spec key key'); [congruence | reflexivity].
    + destruct (String.eqb_spec k key'); [reflexivity | exact IH].
Qed.

Let record (mapping : Dict.t string) (result : SearchResult) : Dict.t string :=
  let doc := document result in
  match id doc with
  | Some reference_id =>
      if nonempty reference_id
      then Dict.set mapping reference_id (Simple.mapping_doc_name doc)
      else mapping
  | None => mapping
  end.

Lemma record_other results ref_id : forall mapping,
  (forall result, In result results -> id (document result) <> Some ref_id) ->
  Dict.lookup (fold_left record results mapping) ref_id
  = Dict.lookup mapping ref_id.
Proof.
  induction results as [| result rest IH]; intros mapping H; [reflexivity |].
  cbn [fold_left]. rewrite IH by (intros r Hr; apply H; now right).
  unfold record. cbn zeta.
  destruct (id (document result)) as [rid |] eqn:Hid; [| reflexivity].
  destruct (nonempty rid); [| reflexivity].
  apply lookup_set_other. intros ->. apply (H result); [now left | exact Hid].
Qed.

Lemma document_mapping_last before result after ref_id :
  id (document result) = Some ref_id ->
  ref_id <> EmptyString ->
  (forall later, In later after -> id (document later) <> Some ref_id) ->
  Dict.lookup (Simple.document_mapping (before ++ result :: after)) ref_id
  = Some (Simple.mapping_doc_name (document result)).
Proof.
  intros Hid Hne Hafter. unfold Simple.document_mapping.
  change (fold_left _ (before ++ result :: after) [])
    with (fold_left record (before ++ result :: after) []).
  rewrite fold_left_app. cbn [fold_left].
  rewrite (record_other after ref_id _ Hafter).
  unfold record at 1. cbn zeta. rewrite Hid.
  apply nonempty_true in Hne. rewrite Hne. apply lookup_set_same.
Qed.

Lemma document_mapping_absent results ref_id :
  (forall result, In result results -> id (document result) <> Some ref_id) ->
  Dict.lookup (Simple.document_mapping results) ref_id = None.
Proof.
  intros H. unfold Simple.document_mapping.
  change (fold_left _ results []) with (fold_left record results []).
  now rewrite (record_other results ref_id [] H).
Qed.

End Mapping.

(** X20.  The document mapping gives, for the id of a result, the name of
    the last result that carries this id, and nothing for an id that no
    result carries. *)
Theorem document_mapping_lookup :
  (forall before result after ref_id,
      id (document result) = Some ref_id ->
      ref_id <> EmptyString ->
      (forall later, In later after -> id (document later) <> Some ref_id) ->
      Dict.lookup (Simple.document_mapping (before ++ result :: after)) ref_id
      = Some (Simple.mapping_doc_name (document result)))
  /\ (forall results ref_id,
         (forall result,
             In result results -> id (document result) <> Some ref_id) ->
         Dict.lookup (Simple.document_mapping results) ref_id = None).
Proof.
  split; [exact document_mapping_last | exact document_mapping_absent].
Qed.

Lemma document_mapping_lookup_witness :
  Dict.lookup (Simple.document_mapping Sample.results_with_repeated_id) "doc-1"
  = Some "Newer title"
  /\ Dict.lookup (Simple.document_mapping Sample.results_with_repeated_id)
       "doc-9" = None.
Proof.
  destruct document_mapping_lookup as (Hlast & Habsent).
  split.
  - refine (Hlast [Sample.result_of Sample.doc_report]
              (Sample.result_of
                 {| id := Some "doc-1";
                    struct_data := Some [ ("title", "Newer title") ] |})
              [Sample.result_of Sample.doc_titled] "doc-1" eq_refl _ _).
    + discriminate.
    + intros later [<- | []]. discriminate.
  - apply Habsent.
    intros result [<- | [<- | [<- | []]]]; discriminate.
Defined.

Section NameSets.

Lemma add_name_in names name n :
  In n (add_name names name) <-> In n names \/ n = name.
Proof.
  unfold add_name.
  destruct (existsb (String.eqb name) names) eqn:E.
  - split; [auto |]. intros [H | ->]; [exact H |].
    apply existsb_exists in E as (x & Hx & Heq).
    apply String.eqb_eq in Heq. now subst.
  - rewrite in_app_iff. cbn. intuition congruence.
Qed.

Lemma add_name_nodup names name : NoDup names -> NoDup (add_name names name).
Proof.
  intros H. unfold add_name.
  destruct (existsb (String.eqb name) names) eqn:E; [exact H |].
  apply NoDup_app; [exact H | constructor; [intros [] | constructor] |].
  intros x Hx [-> | []].
  assert (existsb (String.eqb x) names = true) as Hc; [| congruence].
  apply existsb_exists. exists x. split; [exact Hx | apply String.eqb_refl].
Qed.

Variable step : list string -> CitationSource -> list string.
Variable resolve : CitationSource -> option string.
Hypothesis step_resolve : forall names source,
  step names source
  = match resolve source with
    | Some name => add_name names name
    | None => names
    end.

Lemma fold_sources srcs : forall names,
  NoDup names ->
  NoDup (fold_left step srcs names)
  /\ forall n,
       In n (fold_left step srcs names) <->
       In n names \/ exists source, In source srcs /\ resolve source = Some n.
Proof.
  induction srcs as [| source rest IH]; intros names Hnd; cbn [fold_left].
  - split; [exact Hnd |]. intros n. split; [auto |].
    intros [H | (x & [] & _)]. exact H.
  - assert (Hnd' : NoDup (step names source)).
    { rewrite step_resolve. destruct (resolve source);
        [now apply add_name_nodup | exact Hnd]. }
    destruct (IH _ Hnd') as (H1 & H2). split; [exact H1 |].
    intros n. rewrite H2, step_resolve.
    destruct (resolve source) as [name |] eqn:Hr.
    + rewrite add_name_in. split.
      * intros [[H | ->] | (x & Hx & Hx')]; auto.
        -- right. exists source. split; [now left | exact Hr].
        -- right. exists x. split; [now right | exact Hx'].
      * intros [H | (x & [<- | Hx] & Hx')]; auto.
        -- left. right. congruence.
        -- right. now exists x.
    + split.
      * intros [H | (x & Hx & Hx')]; auto.
        right. exists x. split; [now right | exact Hx'].
      * intros [H | (x & [<- | Hx] & Hx')]; auto; [congruence |].
        right. now exists x.
Qed.

Lemma fold_citations citations : forall names,
  NoDup names ->
  NoDup (fold_left
           (fun names citation => fold_left step (sources citation) names)
           citations names)
  /\ forall n,
       In n (fold_left
               (fun names citation => fold_left step (sources citation) names)
               citations names) <->
       In n names
       \/ exists citation source,
            In citation citations /\ In source (sources citation)
            /\ resolve source = Some n.
Proof.
  induction citations as [| citation rest IH]; intros names Hnd;
    cbn [fold_left].
  - split; [exact Hnd |]. intros n. split; [auto |].
    intros [H | (c & x & [] & _)]. exact H.
  - destruct (fold_sources (sources citation) names Hnd) as (Hnd' & Hin).
    destruct (IH _ Hnd') as (H1 & H2). split; [exact H1 |].
    intros n. rewrite H2, Hin. split.
    + intros [[H | (x & Hx & Hr)] | (c & x & Hc & Hx & Hr)]; auto.
      * right. exists citation, x. auto with datatypes.
      * right. exists c, x. auto with datatypes.
    + intros [H | (c & x & [<- | Hc] & Hx & Hr)]; auto.
      * left. right. now exists x.
      * right. now exists c, x.
Qed.

End NameSets.

(** X21.  [display_results] prints each cited document once: the names it
    prints hold no duplicate, and a name is printed exactly when it is the
    name extracted from the URI of a source of a citation. *)
Theorem cited_documents_once_each citations :
  NoDup (cited_documents citations)
  /\ forall name,
       In name (cited_documents citations) <->
       exists citation source u,
         In citation citations /\ In source (sources citation)
         /\ source_uri source = Some u
         /\ extract_document_name u = name.
Proof.
  destruct (fold_citations cite_source
              (fun source => option_map extract_document_name (source_uri source))
              (fun names source =>
                 ltac:(unfold cite_source; destruct (source_uri source);
                       reflexivity))
              citations [] (NoDup_nil _)) as (Hnd & Hin).
  split; [exact Hnd |].
  intros name. unfold cited_documents. rewrite Hin. split.
  - intros [[] | (c & x & Hc & Hx & Hr)].
    destruct (source_uri x) as [u |] eqn:Hu; [| discriminate Hr].
    injection Hr as <-. now exists c, x, u.
  - intros (c & x & u & Hc & Hx & Hu & <-). right.
    exists c, x. rewrite Hu. auto.
Qed.

Lemma cited_documents_once_each_witness :
  In "Report Final.pdf" (cited_documents Sample.citations_sample).
Proof.
  apply (proj2 (cited_documents_once_each Sample.citations_sample)).
  exists {| sources :=
              [ {| reference_id := Some "unknown";
                   uri := Some "gs://bucket/folder/Report%20Final.pdf" |};
                {| reference_id := None; uri := None |} ] |}.
  exists {| reference_id := Some "unknown";
            uri := Some "gs://bucket/folder/Report%20Final.pdf" |}.
  exists "gs://bucket/folder/Report%20Final.pdf".
  repeat split.
  - right. left. reflexivity.
  - left. reflexivity.
Defined.

(** X22.  The citation sources of [execute_prompt] hold no duplicate and
    are the names of the sources, each named by the document mapping when
    its reference id is known there, whatever its URI, and by its URI
    otherwise. *)
Theorem citation_sources_resolution mapping citations :
  NoDup (Simple.citation_sources mapping citations)
  /\ (forall name,
         In name (Simple.citation_sources mapping citations) <->
         exists citation source,
           In citation citations /\ In source (sources citation)
           /\ Simple.resolve_source mapping source = Some name)
  /\ (forall source ref_id name,
         reference_id source = Some ref_id -> ref_id <> EmptyString ->
         Dict.lookup mapping ref_id = Some name ->
         Simple.resolve_source mapping source = Some name)
  /\ (forall source,
         (forall ref_id,
             reference_id source = Some ref_id ->
             Dict.lookup mapping ref_id = None) ->
         Simple.resolve_source mapping source
         = option_map extract_document_name (source_uri source)).
Proof.
  destruct (fold_citations (Simple.add_source mapping)
              (Simple.resolve_source mapping)
              (fun names source => eq_refl)
              citations [] (NoDup_nil _)) as (Hnd & Hin).
  split; [exact Hnd |]. split; [| split].
  - intros name. unfold Simple.citation_sources. rewrite Hin.
    split; [intros [[] | H]; exact H | auto].
  - intros source ref_id name Hid Hne Hl. unfold Simple.resolve_source.
    apply nonempty_true in Hne. now rewrite Hid, Hne, Hl.
  - intros source H. unfold Simple.resolve_source.
    destruct (reference_id source) as [rid |]; [| reflexivity].
    rewrite (H rid eq_refl). destruct (nonempty rid); reflexivity.
Qed.

Lemma citation_sources_resolution_witness :
  Simple.resolve_source
    (Simple.document_mapping Sample.results_with_repeated_id)
    {| reference_id := Some "doc-2";
       uri := Some "gs://bucket/other/Annexe.pdf" |}
  = Some "Q3 Summary".
Proof.
  refine (proj1 (proj2 (proj2
            (citation_sources_resolution
               (Simple.document_mapping Sample.results_with_repeated_id)
               Sample.citations_sample)))
            {| reference_id := Some "doc-2";
               uri := Some "gs://bucket/other/Annexe.pdf" |}
            "doc-2" "Q3 Summary" eq_refl _ eq_refl).
  discriminate.
Defined.

(** ** More on the template resolver and the query variants *)

(** X23.  A text without an opening brace comes back from the template
    resolver as it is, whatever the configuration. *)
Theorem text_without_brace_is_unchanged text config :
  lacks "{"%char text = true ->
  replace_template_variables text config = text.
Proof.
  intros Hplain. unfold replace_template_variables.
  destruct config as [cfg |]; [| reflexivity].
  destruct (template_dictionary cfg) as [template_dict |]; [| reflexivity].
  induction template_dict as [| [key value] rest IH]; [reflexivity |].
  cbn [fold_left].
  assert (Hstep : substitute text (key, value) = text).
  { unfold substitute. cbn [fst snd append replace].
    rewrite <- (append_nil_r text) at 1.
    rewrite replace_from_plain by exact Hplain.
    cbn [replace_from]. apply append_nil_r. }
  rewrite Hstep. exact IH.
Qed.

Lemma text_without_brace_is_unchanged_witness :
  replace_template_variables "Quelle est la marge ?"
    (Some Sample.config_company_year)
  = "Quelle est la marge ?".
Proof. apply text_without_brace_is_unchanged. reflexivity. Defined.

(** X24.  For a category that none of the four tables knows and a base
    query with a token, the three variants are the base query followed by
    the recency suffix, the base query followed by the generic technical
    terms, and the first token between the constant affixes. *)
Theorem variants_of_unknown_category base_query prompt_type first others :
  Dict.lookup synonym_mappings prompt_type = None ->
  Dict.lookup priority_terms prompt_type = None ->
  Dict.lookup technical_terms prompt_type = None ->
  Dict.lookup short_terms prompt_type = None ->
  split base_query = first :: others ->
  create_optimized_queries base_query prompt_type
  = Returned [ base_query ++ " EODEN 2024 2023";
               base_query ++ " Reno Energy 2024";
               "Reno Energy " ++ first ++ " 2024" ].
Proof.
  intros Hs Hp Ht Hsh Hsplit.
  rewrite (create_optimized_queries_three _ _ _ _ Hsplit).
  unfold enriched_variant, create_enhanced_query_with_context,
    technical_variant, Dict.get.
  now rewrite Hs, Hp, Ht, Hsh.
Qed.

Lemma variants_of_unknown_category_witness :
  create_optimized_queries "Bilan social 2023" "AUTRE"
  = Returned [ "Bilan social 2023 EODEN 2024 2023";
               "Bilan social 2023 Reno Energy 2024";
               "Reno Energy Bilan 2024" ].
Proof.
  apply (variants_of_unknown_category "Bilan social 2023" "AUTRE" "Bilan"
           ["social"; "2023"]); reflexivity.
Defined.
